(** * The template instantiation engine of the MCP server template

    A shallow embedding of the initializer script of the repository
    (src/unnamed/part_000, the project's [initialize.ts]):

    - [copyRecursiveSync]: the recursive tree copy with exclusions
      (lines 41-73);
    - [updatePackageJson]: the rewrite of the manifest (lines 80-114);
    - the copy loop of [run] over [FILES_TO_COPY] (lines 190-195).

    The script talks to Node's [fs], [path], [JSON] and [console].  These
    are modelled as follows.

    - A path is an absolute, normalised POSIX path, kept as the list of its
      segments ([["home"; "tpl"; "src"]] is [/home/tpl/src]); the strings
      that [path.relative] and [path.basename] return are real strings,
      since the script compares them character by character.
    - The file system is a finite map from paths to nodes, a node being a
      directory or a regular file with its content.  Symbolic links,
      permissions and failures of the device are not part of the model:
      an operation fails exactly when the shape of the tree forbids it
      (ENOENT, ENOTDIR, EISDIR, EEXIST).
    - The order in which [fs.readdirSync] lists a directory is not fixed by
      Node; it is a variable of the development.
    - [JSON.parse] and [JSON.stringify] over texts are variables too; the
      values they exchange with the script are the inductive [json].
    - What the script prints is collected in the [console] of the world. *)

From Stdlib Require Import String Ascii List Bool Lia PrimFloat.
From stdpp Require Import base option list gmap strings.

Set Warnings "-register-all".
Set Default Proof Using "Type".
Local Open Scope string_scope.
(* [++] is kept for lists; strings are appended with [+:+]. *)
Disable Notation "_ ++ _" : string_scope.

(** ** Paths *)

Abbreviation path := (list string).

(** [a/b/c] from [["a"; "b"; "c"]]. *)
Fixpoint join_sep (l : list string) : string :=
  match l with
  | [] => ""
  | [s] => s
  | s :: l' => s +:+ "/" +:+ join_sep l'
  end.

(** The longest common prefix of segments is dropped from both paths. *)
Fixpoint strip_common (from to : path) : path * path :=
  match from, to with
  | f :: from', t :: to' =>
      if String.eqb f t then strip_common from' to' else (from, to)
  | _, _ => (from, to)
  end.

(** [path.relative(from, to)] on resolved paths: one [..] for every segment
    left in [from], then what is left of [to]. *)
Definition path_relative (from to : path) : string :=
  let '(up, down) := strip_common from to in
  join_sep (map (fun _ => "..") up ++ down).

(** [path.join(dir, name)] for a single segment [name]. *)
Definition path_join (dir : path) (name : string) : path := dir ++ [name].

(** [path.dirname(p)]; the root is its own parent. *)
Definition path_dirname (p : path) : path := removelast p.

(** [path.basename(p)]; empty for the root. *)
Definition path_basename (p : path) : string := List.last p "".

(** [s.split('/')]. *)
Fixpoint split_slash (s : string) : list string :=
  match s with
  | "" => [""]
  | String c s' =>
      if Ascii.eqb c "/" then "" :: split_slash s'
      else match split_slash s' with
           | seg :: rest => String c seg :: rest
           | [] => [String c ""]
           end
  end.

(** The segments of a path string applied to a resolved path: empty
    segments and [.] are skipped, [..] drops the last segment (and stays at
    the root). *)
Definition resolve_onto (base : path) (segs : list string) : path :=
  fold_left (fun acc seg =>
               if String.eqb seg "" || String.eqb seg "." then acc
               else if String.eqb seg ".." then removelast acc
               else acc ++ [seg])
            segs base.

(** [path.resolve(cwd, arg)] for a resolved [cwd] and a non-empty [arg]:
    an [arg] that starts with [/] is taken from the root. *)
Definition path_resolve (cwd : path) (arg : string) : path :=
  resolve_onto (if String.prefix "/" arg then [] else cwd) (split_slash arg).

(** A resolved path as the string Node prints. *)
Definition path_string (p : path) : string := "/" +:+ join_sep p.

(** [s.startsWith(ex)]. *)
Definition startsWith (s ex : string) : bool := String.prefix ex s.

(** ** The file system, the console and the world *)

Inductive node : Type :=
  | Dir
  | File (content : string).

#[global] Instance node_eq_dec : EqDecision node.
Proof. solve_decision. Defined.

Inductive errno : Type := ENOENT | ENOTDIR | EISDIR | EEXIST.

Inductive exn : Type :=
  | FsError (code : errno) (at_path : path)
  | SyntaxError
  | TypeError.

Inductive console_line : Type :=
  | ConsoleLog (msg : string)
  | ConsoleWarn (msg : string) (about : path)
  | ConsoleError (msg : string) (cause : exn).

Record world : Type := World {
  files : gmap path node;
  console : list console_line
}.

Definition with_files (w : world) (fs : gmap path node) : world :=
  World fs (console w).

Definition with_line (w : world) (l : console_line) : world :=
  World (files w) (console w ++ [l]).

(** ** Computations: state, exceptions and fuel *)

Inductive outcome (A : Type) : Type :=
  | Ret (a : A) (w : world)
  | Throw (e : exn) (w : world)
  | OutOfFuel (w : world).

Arguments Ret {A} a w.
Arguments Throw {A} e w.
Arguments OutOfFuel {A} w.

Definition final_world {A} (o : outcome A) : world :=
  match o with
  | Ret _ w | Throw _ w | OutOfFuel w => w
  end.

Definition M (A : Type) : Type := world -> outcome A.

Definition ret {A} (a : A) : M A := fun w => Ret a w.

Definition bind {A B} (m : M A) (k : A -> M B) : M B :=
  fun w =>
    match m w with
    | Ret a w' => k a w'
    | Throw e w' => Throw e w'
    | OutOfFuel w' => OutOfFuel w'
    end.

Definition throw {A} (e : exn) : M A := fun w => Throw e w.

Definition out_of_fuel {A} : M A := fun w => OutOfFuel w.

(** [try { body } catch (error) { handler(error) }]. *)
Definition try_catch {A} (body : M A) (handler : exn -> M A) : M A :=
  fun w =>
    match body w with
    | Throw e w' => handler e w'
    | o => o
    end.

Notation "'let*' x := m 'in' k" := (bind m (fun x => k))
  (at level 10, x name, m at level 100, k at level 200).
Notation "m ;; k" := (bind m (fun _ => k))
  (at level 100, k at level 200, right associativity).

(** [list.forEach(f)]. *)
Fixpoint forEach {A} (l : list A) (f : A -> M unit) : M unit :=
  match l with
  | [] => ret tt
  | x :: l' => f x ;; forEach l' f
  end.

(** ** Node's [fs] *)

Definition existsSync (p : path) : M bool :=
  fun w => Ret (bool_decide (is_Some (files w !! p))) w.

(** [fs.statSync(p)]: the node, ENOENT when there is none. *)
Definition statSync (p : path) : M node :=
  fun w =>
    match files w !! p with
    | Some n => Ret n w
    | None => Throw (FsError ENOENT p) w
    end.

Definition isDirectory (n : node) : bool :=
  match n with
  | Dir => true
  | File _ => false
  end.

(** One step of [mkdir -p] on the way to [base/rest]: the directory [base]
    is made when nothing is there, a file in the way is an error ([EEXIST]
    at the target itself, [ENOTDIR] above it), and the error names the
    directory that was asked for. *)
Fixpoint mkdir_walk (base rest : path) (fs : gmap path node)
  : (exn * gmap path node) + gmap path node :=
  match fs !! base with
  | Some (File _) =>
      inl (FsError (match rest with [] => EEXIST | _ => ENOTDIR end)
             (base ++ rest), fs)
  | here =>
      let fs' := match here with None => <[base := Dir]> fs | _ => fs end in
      match rest with
      | [] => inr fs'
      | s :: rest' => mkdir_walk (base ++ [s]) rest' fs'
      end
  end.

(** [fs.mkdirSync(p, { recursive: true })]. *)
Definition mkdirSync_recursive (p : path) : M unit :=
  fun w =>
    match mkdir_walk [] p (files w) with
    | inr fs' => Ret tt (with_files w fs')
    | inl (e, fs') => Throw e (with_files w fs')
    end.

(** Opening [p] for writing: its parent has to be a directory and [p]
    itself must not be one. *)
Definition open_for_write (p : path) (fs : gmap path node) : option errno :=
  match fs !! path_dirname p with
  | None => Some ENOENT
  | Some (File _) => Some ENOTDIR
  | Some Dir =>
      match fs !! p with
      | Some Dir => Some EISDIR
      | _ => None
      end
  end.

(** [fs.readFileSync(p, 'utf-8')]. *)
Definition readFileSync (p : path) : M string :=
  fun w =>
    match files w !! p with
    | Some (File c) => Ret c w
    | Some Dir => Throw (FsError EISDIR p) w
    | None => Throw (FsError ENOENT p) w
    end.

(** [fs.writeFileSync(p, data)]. *)
Definition writeFileSync (p : path) (data : string) : M unit :=
  fun w =>
    match open_for_write p (files w) with
    | Some code => Throw (FsError code p) w
    | None => Ret tt (with_files w (<[p := File data]> (files w)))
    end.

(** [fs.copyFileSync(src, dest)]: the content of [src] is read first. *)
Definition copyFileSync (src dest : path) : M unit :=
  let* data := readFileSync src in writeFileSync dest data.

Definition console_log (msg : string) : M unit :=
  fun w => Ret tt (with_line w (ConsoleLog msg)).

Definition console_warn (msg : string) (about : path) : M unit :=
  fun w => Ret tt (with_line w (ConsoleWarn msg about)).

Definition console_error (msg : string) (cause : exn) : M unit :=
  fun w => Ret tt (with_line w (ConsoleError msg cause)).

(** ** JSON values and JavaScript objects *)

Inductive json : Type :=
  | JNull
  | JBool (b : bool)
  | JNum (x : float)
  | JStr (s : string)
  | JArr (items : list json)
  | JObj (fields : list (string * json)).

(** The own properties of an object, in property order. *)
Abbreviation object := (list (string * json)).

(** [o.k]: [None] is [undefined]. *)
Fixpoint obj_get (k : string) (o : object) : option json :=
  match o with
  | [] => None
  | (k', v) :: o' => if String.eqb k' k then Some v else obj_get k o'
  end.

(** [o.k = v]: an existing property keeps its place, a new one goes last. *)
Fixpoint obj_set (k : string) (v : json) (o : object) : object :=
  match o with
  | [] => [(k, v)]
  | (k', v') :: o' =>
      if String.eqb k' k then (k, v) :: o' else (k', v') :: obj_set k v o'
  end.

(** [delete o.k]. *)
Fixpoint obj_delete (k : string) (o : object) : object :=
  match o with
  | [] => []
  | (k', v') :: o' =>
      if String.eqb k' k then obj_delete k o' else (k', v') :: obj_delete k o'
  end.

(** [v.k] for a value [v] that is not [null]: only objects carry the
    properties the script reads. *)
Definition get_prop (v : json) (k : string) : option json :=
  match v with
  | JObj o => obj_get k o
  | _ => None
  end.

(** JavaScript's ToBoolean. *)
Definition truthy (v : option json) : bool :=
  match v with
  | None | Some JNull => false
  | Some (JBool b) => b
  | Some (JNum x) => negb (PrimFloat.is_zero x || PrimFloat.is_nan x)
  | Some (JStr s) => negb (String.eqb s "")
  | Some (JArr _) | Some (JObj _) => true
  end.

(** [a || b] where [b] is a value. *)
Definition js_or (a : option json) (b : json) : json :=
  match a with
  | Some v => if truthy a then v else b
  | None => b
  end.

(** ** The configuration of the script (lines 14-31) *)

Definition FILES_TO_COPY : list string :=
  [".eslintrc.json"; ".gitignore"; ".prettierrc.json"; "README.md";
   "tsconfig.json"; "docs"; "src"].

Definition EXCLUDE_FROM_COPY : list string :=
  ["node_modules"; "dist"; ".git"; "package-lock.json";
   join_sep ["src"; "initialize.ts"]].

(** ** A directory listing

    One order [fs.readdirSync] may use: the names of the entries right
    below [p], in the order of the keys of the map. *)

Fixpoint strip_prefix (p q : path) : option path :=
  match p, q with
  | [], _ => Some q
  | s :: p', t :: q' => if String.eqb s t then strip_prefix p' q' else None
  | _ :: _, [] => None
  end.

Definition child_name (p : path) (q : path) : option string :=
  match strip_prefix p q with
  | Some [name] => Some name
  | _ => None
  end.

Definition readdir_keys (fs : gmap path node) (p : path) : list string :=
  omap (fun e => child_name p e.1) (map_to_list fs).

(** * Example data *)

(** ** A template and a destination *)

Definition demo_template : path := ["home"; "tpl"].
Definition demo_target : path := ["home"; "out"].

(** A template with a manifest, a [.gitignore], sources and documents, and
    a destination that holds a file of its own. *)
Definition demo_fs : gmap path node :=
  list_to_map
    [ ([], Dir); (["home"], Dir);
      (["home"; "tpl"], Dir);
      (["home"; "tpl"; "package.json"], File "template manifest");
      (["home"; "tpl"; ".gitignore"], File "node_modules");
      (["home"; "tpl"; "src"], Dir);
      (["home"; "tpl"; "src"; "initialize.ts"], File "init");
      (["home"; "tpl"; "src"; "server.ts"], File "server");
      (["home"; "tpl"; "src"; "tools"], Dir);
      (["home"; "tpl"; "src"; "tools"; "index.ts"], File "tools");
      (["home"; "tpl"; "docs"], Dir);
      (["home"; "tpl"; "docs"; "guide.md"], File "guide");
      (["home"; "out"], Dir);
      (["home"; "out"; "docs"], Dir);
      (["home"; "out"; "docs"; "extra.txt"], File "mine") ].

Definition demo_world : world := World demo_fs [].

(** A machine with no template manifest. *)
Definition bare_world : world :=
  World (list_to_map [ ([], Dir); (["home"], Dir); (["home"; "out"], Dir) ]) [].

(** The manifest of the scenario of the specification, with the build
    command of the template. *)
Definition demo_manifest : object :=
  [ ("name", JStr "tmpl"); ("version", JStr "9.9.9"); ("bin", JStr "cli.js");
    ("author", JStr "X");
    ("scripts", JObj [ ("start", JStr "node dist/server.js");
                       ("build", JStr "tsc && node -e patch-initialize") ]) ].

Definition demo_answers : object :=
  [ ("projectName", JStr "foo"); ("description", JStr "bar") ].

(** The manifest of the scenario as the specification gives it: no
    scripts at all. *)
Definition plain_manifest : object :=
  [ ("name", JStr "tmpl"); ("version", JStr "9.9.9"); ("bin", JStr "cli.js");
    ("author", JStr "X") ].

Definition plain_parse (text : string) : option json :=
  if String.eqb text "template manifest" then Some (JObj plain_manifest) else None.

(** The parser of the examples knows the one text they use. *)
Definition demo_parse (text : string) : option json :=
  if String.eqb text "template manifest" then Some (JObj demo_manifest) else None.

Definition quoted (s : string) : string :=
  String (ascii_of_nat 34) (s +:+ String (ascii_of_nat 34) "").

(** A compact rendering; the examples hold no number, which is printed
    as [0]. *)
Fixpoint demo_stringify (v : json) : string :=
  match v with
  | JNull => "null"
  | JBool b => if b then "true" else "false"
  | JNum _ => "0"
  | JStr s => quoted s
  | JArr items => "[" +:+ join_sep (map demo_stringify items) +:+ "]"
  | JObj fields =>
      "{" +:+ join_sep (map (fun kv => quoted kv.1 +:+ ":" +:+ demo_stringify kv.2)
                          fields) +:+ "}"
  end.

(** The file system of [demo_world] once the sources of the template have
    been copied. *)
Definition demo_copied : world :=
  World
    (list_to_map
       [ ([], Dir); (["home"], Dir);
         (["home"; "tpl"], Dir);
         (["home"; "tpl"; "package.json"], File "template manifest");
         (["home"; "tpl"; ".gitignore"], File "node_modules");
         (["home"; "tpl"; "src"], Dir);
         (["home"; "tpl"; "src"; "initialize.ts"], File "init");
         (["home"; "tpl"; "src"; "server.ts"], File "server");
         (["home"; "tpl"; "src"; "tools"], Dir);
         (["home"; "tpl"; "src"; "tools"; "index.ts"], File "tools");
         (["home"; "tpl"; "docs"], Dir);
         (["home"; "tpl"; "docs"; "guide.md"], File "guide");
         (["home"; "out"], Dir);
         (["home"; "out"; "docs"], Dir);
         (["home"; "out"; "docs"; "extra.txt"], File "mine");
         (["home"; "out"; "src"], Dir);
         (["home"; "out"; "src"; "server.ts"], File "server");
         (["home"; "out"; "src"; "tools"], Dir);
         (["home"; "out"; "src"; "tools"; "index.ts"], File "tools") ])
    [].

(** A template whose manifest is the JSON text [null], and a parser that
    knows that text. *)
Definition null_manifest_world : world :=
  World (<[ ["home"; "tpl"; "package.json"] := File "null" ]> demo_fs) [].

Definition null_parse (text : string) : option json :=
  if String.eqb text "null" then Some JNull else None.

(** * The script *)

Section Initialize.

(** Line 13: the root of the template project. *)
Variable TEMPLATE_DIR : path.

(** The names [fs.readdirSync] returns for a directory of a file system,
    in the order it returns them. *)
Variable readdir_order : gmap path node -> path -> list string.

(** [JSON.parse] ([None] is a SyntaxError) and [JSON.stringify(_, null, 2)]. *)
Variable JSON_parse : string -> option json.
Variable JSON_stringify : json -> string.

(** [fs.readdirSync(p)]. *)
Definition readdirSync (p : path) : M (list string) :=
  fun w =>
    match files w !! p with
    | Some Dir => Ret (readdir_order (files w) p) w
    | Some (File _) => Throw (FsError ENOTDIR p) w
    | None => Throw (FsError ENOENT p) w
    end.

(** Line 47: [exclude.some(ex => relativeSourcePath.startsWith(ex))]. *)
Definition excluded (exclude : list string) (source : path) : bool :=
  existsb (fun ex => startsWith (path_relative TEMPLATE_DIR source) ex) exclude.

(** Lines 41-73.  [fuel] bounds the depth of the recursion. *)
Fixpoint copyRecursiveSync (fuel : nat) (source destination : path)
    (exclude : list string) : M unit :=
  match fuel with
  | O => out_of_fuel
  | S fuel' =>
      let* exists_ := existsSync source in
      let* stats :=
        (if exists_ then let* st := statSync source in ret (Some st)
         else ret None) in
      let isDir := from_option isDirectory false stats in
      if negb exists_ || excluded exclude source then ret tt
      else if isDir then
        (let* there := existsSync destination in
         if negb there then mkdirSync_recursive destination else ret tt) ;;
        let* children := readdirSync source in
        forEach children (fun childItemName =>
          copyRecursiveSync fuel'
            (path_join source childItemName)
            (path_join destination childItemName)
            exclude)
      else if exists_ then
        let destDir := path_dirname destination in
        (let* there := existsSync destDir in
         if negb there then mkdirSync_recursive destDir else ret tt) ;;
        copyFileSync source destination
      else
        console_warn "Source path not found, skipping: " source
  end.

(** Lines 190-195 of [run]: every listed entry is copied in turn. *)
Definition copyTemplateFiles (fuel : nat) (entries : list string)
    (targetDir : path) (exclude : list string) : M unit :=
  forEach entries (fun fileOrDir =>
    let sourcePath := path_join TEMPLATE_DIR fileOrDir in
    let destinationPath := path_join targetDir fileOrDir in
    console_log ("Copying " +:+ fileOrDir +:+ "...") ;;
    copyRecursiveSync fuel sourcePath destinationPath exclude).

(** Lines 88-105 on a manifest that is an object. *)
Definition rewriteManifest (targetDir : path) (answers : object)
    (packageJson : object) : object :=
  let packageJson :=
    obj_set "name"
      (js_or (obj_get "projectName" answers) (JStr (path_basename targetDir)))
      packageJson in
  let packageJson := obj_set "version" (JStr "0.1.0") packageJson in
  let packageJson :=
    obj_set "description" (js_or (obj_get "description" answers) (JStr ""))
      packageJson in
  let packageJson := obj_delete "bin" packageJson in
  let packageJson := obj_delete "author" packageJson in
  let packageJson := obj_delete "repository" packageJson in
  let packageJson := obj_delete "bugs" packageJson in
  let packageJson := obj_delete "homepage" packageJson in
  match obj_get "scripts" packageJson with
  | Some scripts =>
      if truthy (Some scripts) && truthy (get_prop scripts "build") then
        match scripts with
        | JObj s => obj_set "scripts" (JObj (obj_set "build" (JStr "tsc") s)) packageJson
        | _ => packageJson
        end
      else packageJson
  | None => packageJson
  end.

(** Lines 88-105 on whatever [JSON.parse] returned.  The script is a module,
    hence strict: setting a property of [null] or of a primitive is a
    TypeError.  The named properties set on an array are not part of what
    [JSON.stringify] writes for it. *)
Definition modifyPackageJson (targetDir : path) (answers : object)
    (packageJson : json) : M json :=
  match packageJson with
  | JObj fields => ret (JObj (rewriteManifest targetDir answers fields))
  | JArr items => ret (JArr items)
  | _ => throw TypeError
  end.

(** Lines 80-114. *)
Definition updatePackageJson (targetDir : path) (answers : object) : M unit :=
  let packageJsonPath := path_join targetDir "package.json" in
  try_catch
    (let templatePackageJsonPath := path_join TEMPLATE_DIR "package.json" in
     let* text := readFileSync templatePackageJsonPath in
     let* parsed :=
       (match JSON_parse text with
        | Some v => ret v
        | None => throw SyntaxError
        end) in
     let* packageJson := modifyPackageJson targetDir answers parsed in
     writeFileSync packageJsonPath (JSON_stringify packageJson) ;;
     console_log "Updated package.json successfully.")
    (fun error => console_error "Error updating package.json: " error).

(** The call wrote [manifest]: it returned, the destination holds the text
    [JSON.stringify] gives for [manifest], nothing else changed and the
    success line was printed. *)
Definition writes_manifest (targetDir : path) (answers : object) (w : world)
    (manifest : object) : Prop :=
  updatePackageJson targetDir answers w =
  Ret tt (with_line
            (with_files w
               (<[path_join targetDir "package.json" :=
                    File (JSON_stringify (JObj manifest))]> (files w)))
            (ConsoleLog "Updated package.json successfully.")).

(** The manifest's build command: [packageJson.scripts.build]. *)
Definition build_script (packageJson : object) : option json :=
  match obj_get "scripts" packageJson with
  | Some scripts => get_prop scripts "build"
  | None => None
  end.

(** Lines 53-55 and 66-68: [if (!fs.existsSync(d)) fs.mkdirSync(d, ...)]. *)
Definition ensure_dir (d : path) : M unit :=
  let* there := existsSync d in
  if negb there then mkdirSync_recursive d else ret tt.

(** How [run] ends when nothing is thrown: by [process.exit(code)], or at
    the end of its body. *)
Inductive run_end : Type :=
  | Exited (code : nat)
  | Finished.

(** A line feed. *)
Definition nl : string := String (ascii_of_nat 10) "".

(** Lines 202-210: what [run] prints last. *)
Definition final_instructions (targetArg : string) : list string :=
  [ nl +:+ "Project initialized successfully!";
    nl +:+ "Next steps:";
    "  cd " +:+ targetArg;
    "  npm install";
    "  # Review configuration in src/config/ConfigurationManager.ts";
    "  # Add your tools in src/tools/";
    "  # Add your services in src/services/";
    "  npm run dev  (to start the development server)";
    "  npm run build (to build for production)" ].

(** Lines 132-153 of [run]: a target that exists is kept when the user
    confirms ([overwrite] is the answer of the prompt) and ends the run
    when not; a target that does not exist is made.  The result tells
    whether the run was cancelled. *)
Definition prepareTarget (targetDir : path) (overwrite : bool) : M bool :=
  let* there := existsSync targetDir in
  if there then
    if negb overwrite then
      console_log "Initialization cancelled." ;; ret true
    else
      console_log ("Overwriting directory: " +:+ path_string targetDir) ;;
      ret false
  else
    mkdirSync_recursive targetDir ;; ret false.

(** Lines 129-210 of [run], from the target argument on: [cwd] is
    [process.cwd()], [overwrite] and [answers] are what the two prompts
    resolve to. *)
Definition run_from_target (fuel : nat) (cwd : path) (targetArg : string)
    (overwrite : bool) (answers : object) : M run_end :=
  let targetDir := path_resolve cwd targetArg in
  let* cancelled := prepareTarget targetDir overwrite in
  if cancelled then ret (Exited 0)
  else
    console_log (nl +:+ "Creating project structure...") ;;
    copyTemplateFiles fuel FILES_TO_COPY targetDir EXCLUDE_FROM_COPY ;;
    updatePackageJson targetDir answers ;;
    forEach (final_instructions targetArg) console_log ;;
    ret Finished.

(** An entry is kept by a step that leaves it as it is, or that puts a
    file where a file (no directory) stood below [target]. *)
Definition keeps (target : path) (fs fs' : gmap path node) : Prop :=
  forall p n, fs !! p = Some n ->
    fs' !! p = Some n
    \/ (target `prefix_of` p /\ n <> Dir /\ exists c, fs' !! p = Some (File c)).

(** The paths a step changes lie on the way to [target] or below it. *)
Definition near (target : path) (fs fs' : gmap path node) : Prop :=
  forall p, fs' !! p <> fs !! p -> p `prefix_of` target \/ target `prefix_of` p.

(** * The vocabulary of the statements *)

(** ** What a copy may change *)

(** Two trees that do not overlap: neither root lies in the other tree. *)
Definition disjoint_trees (a b : path) : Prop :=
  ~ a `prefix_of` b /\ ~ b `prefix_of` a.

(** The changes a copy of [src] to [dst] may make to one path [p] of the
    file system: none; a new directory on the way to [dst] or below it; or a
    file written at [dst/rel] with the content of the file [src/rel], where
    no directory stood. *)
Definition copy_change (src dst : path) (fs fs' : gmap path node)
    (p : path) : Prop :=
  fs' !! p = fs !! p
  \/ (fs !! p = None /\ fs' !! p = Some Dir /\
      (p `prefix_of` dst \/ dst `prefix_of` p))
  \/ (exists (rel : path) (c : string),
        p = dst ++ rel /\ fs !! (src ++ rel) = Some (File c) /\
        fs' !! p = Some (File c) /\ fs !! p <> Some Dir).

Definition copy_effect (src dst : path) (fs fs' : gmap path node) : Prop :=
  forall p, copy_change src dst fs fs' p.

(** The same without a word on the source, for trees that may overlap: a
    path keeps its entry, or gets a new directory on the way to [dst] or
    below it, or is below [dst], was no directory and now holds a file. *)
Definition copy_touch (dst : path) (fs fs' : gmap path node) : Prop :=
  forall p,
    fs' !! p = fs !! p
    \/ (fs !! p = None /\ fs' !! p = Some Dir /\
        (p `prefix_of` dst \/ dst `prefix_of` p))
    \/ (dst `prefix_of` p /\ fs !! p <> Some Dir /\
        exists c, fs' !! p = Some (File c)).

(** The file system [mkdir_walk] leaves, whether it succeeded or not. *)
Definition walk_fs (r : (exn * gmap path node) + gmap path node)
  : gmap path node :=
  match r with
  | inl (_, fs) | inr fs => fs
  end.

(** ** A destination that holds a complete copy *)

(** The destination [d] holds what the source [s] holds: an entry where
    the source has a directory (the script makes a directory only when
    nothing is there), and for a file the same content, in a directory. *)
Definition mirrors (fs : gmap path node) (s d : path) : Prop :=
  match fs !! s with
  | None => True
  | Some Dir => is_Some (fs !! d)
  | Some (File c) =>
      fs !! d = Some (File c) /\ fs !! path_dirname d = Some Dir
  end.

(** The entries of the source tree the copy gets to: on the way from [src]
    to [src/rel] nothing passes the exclusion test, and everything above
    [src/rel] is a directory. *)
Definition reached (exclude : list string) (fs : gmap path node)
    (src rel : path) : Prop :=
  forall pre, pre `prefix_of` rel ->
    excluded exclude (src ++ pre) = false /\
    (pre <> rel -> fs !! (src ++ pre) = Some Dir).

(** The destination already holds a complete copy of the source. *)
Definition holds_copy (exclude : list string) (src dst : path)
    (fs : gmap path node) : Prop :=
  forall rel, reached exclude fs src rel ->
              mirrors fs (src ++ rel) (dst ++ rel).

(** The length of the longest path of the file system. *)
Definition max_depth (fs : gmap path node) : nat :=
  max_list (map (fun e => length e.1) (map_to_list fs)).

(** The names [fs.readdirSync] returns include every entry of the
    directory. *)
Definition lists_all_entries : Prop :=
  forall (fs : gmap path node) (p : path) (name : string),
    is_Some (fs !! (p ++ [name])) -> name ∈ readdir_order fs p.

(** *** Deciding [holds_copy] *)

Fixpoint prefixes (l : path) : list path :=
  [] :: match l with
        | [] => []
        | x :: l' => map (cons x) (prefixes l')
        end.

Definition mirrorsb (fs : gmap path node) (s d : path) : bool :=
  match fs !! s with
  | None => true
  | Some Dir => bool_decide (is_Some (fs !! d))
  | Some (File c) =>
      bool_decide (fs !! d = Some (File c)) &&
      bool_decide (fs !! path_dirname d = Some Dir)
  end.

Definition reachedb (exclude : list string) (fs : gmap path node)
    (src rel : path) : bool :=
  forallb (fun pre =>
             negb (excluded exclude (src ++ pre)) &&
             (bool_decide (pre = rel) ||
              bool_decide (fs !! (src ++ pre) = Some Dir)))
          (prefixes rel).

(** Every entry of the file system that lies in the source tree and is
    reached has its mirror. *)
Definition holds_copyb (exclude : list string) (src dst : path)
    (fs : gmap path node) : bool :=
  forallb (fun e : path * node =>
             match strip_prefix src e.1 with
             | Some rel =>
                 implb (reachedb exclude fs src rel)
                       (mirrorsb fs (src ++ rel) (dst ++ rel))
             | None => true
             end)
          (map_to_list fs).

(** ** The rewrite of the manifest, step by step *)

(** Lines 88-100: the identity of the new project is set and what
    describes the template is dropped. *)
Definition set_identity (targetDir : path) (answers packageJson : object)
  : object :=
  obj_delete "homepage" (obj_delete "bugs" (obj_delete "repository"
    (obj_delete "author" (obj_delete "bin"
      (obj_set "description"
         (js_or (obj_get "description" answers) (JStr ""))
         (obj_set "version" (JStr "0.1.0")
            (obj_set "name"
               (js_or (obj_get "projectName" answers)
                      (JStr (path_basename targetDir)))
               packageJson))))))).

(** Lines 102-105. *)
Definition fix_build (packageJson : object) : object :=
  match obj_get "scripts" packageJson with
  | Some (JObj s) =>
      if truthy (obj_get "build" s)
      then obj_set "scripts" (JObj (obj_set "build" (JStr "tsc") s)) packageJson
      else packageJson
  | _ => packageJson
  end.

(** ** Where a copy may write *)

(** The paths a copy of [src] to [dst] may change at all: those strictly
    above [dst], and [dst/rel] for a [rel] that no exclusion stops on the
    way down from [src]. *)
Definition within_reach (exclude : list string) (src dst p : path) : Prop :=
  (p `prefix_of` dst /\ p <> dst)
  \/ exists rel : path,
       p = dst ++ rel /\
       forall pre, pre `prefix_of` rel -> excluded exclude (src ++ pre) = false.

Definition writes_within (exclude : list string) (src dst : path)
    (fs fs' : gmap path node) : Prop :=
  forall p, fs' !! p <> fs !! p -> within_reach exclude src dst p.

(** The outcomes that are not the fuel running out. *)
Definition not_exhausted {A} (o : outcome A) : Prop :=
  match o with
  | OutOfFuel _ => False
  | _ => True
  end.

(** The outcomes that are not a normal return. *)
Definition not_returned {A} (o : outcome A) : Prop :=
  match o with
  | Ret _ _ => False
  | _ => True
  end.

(** The line the loop of [run] prints for an entry (line 193). *)
Definition copying_line (fileOrDir : string) : console_line :=
  ConsoleLog ("Copying " +:+ fileOrDir +:+ "...").

(** ** The keys of a manifest *)

(** The names of the properties of an object, in property order. *)
Definition keys (o : object) : list string := map fst o.

(** Where a property set on an object ends up: in its place when the
    object has it, last when it does not. *)
Definition add_key (k : string) (l : list string) : list string :=
  if bool_decide (k ∈ l) then l else l ++ [k].

(** Lines 94-100: the fields that describe the template. *)
Definition TEMPLATE_FIELDS : list string :=
  ["bin"; "author"; "repository"; "bugs"; "homepage"].


(** * Properties *)

(** ** Strings and paths *)

Lemma prefix_append (e rest : string) : String.prefix e (e +:+ rest) = true.
Proof.
  induction e as [|c e IH]; simpl.
  - now destruct rest.
  - destruct (ascii_dec c c) as [_|Hc]; [exact IH | now destruct Hc].
Qed.

Lemma prefix_refl (e : string) : String.prefix e e = true.
Proof.
  induction e as [|c e IH]; simpl; [reflexivity|].
  destruct (ascii_dec c c) as [_|Hc]; [exact IH | now destruct Hc].
Qed.

Lemma prefix_empty (s : string) : String.prefix "" s = true.
Proof. now destruct s. Qed.

Lemma append_assoc (a b c : string) : (a +:+ b) +:+ c = a +:+ (b +:+ c).
Proof.
  induction a as [|x a IH]; [reflexivity|].
  change (String x ((a +:+ b) +:+ c) = String x (a +:+ (b +:+ c))).
  now rewrite IH.
Qed.

Lemma join_sep_app (es rest : path) :
  es <> [] -> rest <> [] ->
  join_sep (es ++ rest) = join_sep es +:+ "/" +:+ join_sep rest.
Proof.
  intros Hes Hrest. induction es as [|a es IH]; [done|].
  destruct es as [|b es].
  - destruct rest; [done | reflexivity].
  - change (join_sep ((a :: b :: es) ++ rest))
      with (a +:+ "/" +:+ join_sep ((b :: es) ++ rest)).
    rewrite IH by done.
    change (join_sep (a :: b :: es)) with (a +:+ "/" +:+ join_sep (b :: es)).
    now rewrite !append_assoc.
Qed.

Lemma strip_common_app (base rest : path) :
  strip_common base (base ++ rest) = ([], rest).
Proof.
  induction base as [|s base IH]; simpl.
  - now destruct rest.
  - now rewrite String.eqb_refl.
Qed.

(** Below the template root the relative path is the rest of the path. *)
Lemma path_relative_below (rest : path) :
  path_relative TEMPLATE_DIR (TEMPLATE_DIR ++ rest) = join_sep rest.
Proof. unfold path_relative. now rewrite strip_common_app. Qed.

Lemma path_relative_self : path_relative TEMPLATE_DIR TEMPLATE_DIR = "".
Proof.
  rewrite <- (app_nil_r TEMPLATE_DIR) at 2. apply path_relative_below.
Qed.

Lemma excluded_intro (exclude : list string) (source : path) (e : string) :
  e ∈ exclude ->
  startsWith (path_relative TEMPLATE_DIR source) e = true ->
  excluded exclude source = true.
Proof.
  intros Hin Hpre. unfold excluded. apply existsb_exists.
  exists e. split; [now apply list_elem_of_In | exact Hpre].
Qed.

(** ** Objects *)

Lemma obj_get_set_eq (k : string) (v : json) (o : object) :
  obj_get k (obj_set k v o) = Some v.
Proof.
  induction o as [|[k' v'] o IH]; simpl.
  - now rewrite String.eqb_refl.
  - destruct (String.eqb k' k) eqn:E; simpl.
    + now rewrite String.eqb_refl.
    + now rewrite E.
Qed.

Lemma obj_get_set_ne (k k' : string) (v : json) (o : object) :
  k <> k' -> obj_get k (obj_set k' v o) = obj_get k o.
Proof.
  intros Hne. induction o as [|[k0 v0] o IH]; simpl.
  - destruct (String.eqb_spec k' k); [congruence | reflexivity].
  - destruct (String.eqb_spec k0 k') as [-> | Hk0]; simpl.
    + destruct (String.eqb_spec k' k); [congruence | reflexivity].
    + destruct (String.eqb_spec k0 k); [reflexivity | exact IH].
Qed.

Lemma obj_get_delete_eq (k : string) (o : object) :
  obj_get k (obj_delete k o) = None.
Proof.
  induction o as [|[k' v'] o IH]; simpl; [reflexivity|].
  destruct (String.eqb k' k) eqn:E; simpl; [exact IH|]. now rewrite E.
Qed.

Lemma obj_get_delete_ne (k k' : string) (o : object) :
  k <> k' -> obj_get k (obj_delete k' o) = obj_get k o.
Proof.
  intros Hne. induction o as [|[k0 v0] o IH]; simpl; [reflexivity|].
  destruct (String.eqb_spec k0 k') as [-> | Hk0]; simpl.
  - destruct (String.eqb_spec k' k); [congruence | exact IH].
  - destruct (String.eqb_spec k0 k); [reflexivity | exact IH].
Qed.

Ltac obj_lookup :=
  repeat first
    [ rewrite obj_get_set_eq
    | rewrite obj_get_delete_eq
    | rewrite obj_get_set_ne by discriminate
    | rewrite obj_get_delete_ne by discriminate ].

(** ** One call of [copyRecursiveSync], case by case *)

Lemma copy_step (fuel : nat) (source destination : path)
    (exclude : list string) (w : world) :
  copyRecursiveSync (S fuel) source destination exclude w =
  match files w !! source with
  | None => Ret tt w
  | Some n =>
      if excluded exclude source then Ret tt w
      else match n with
           | Dir =>
               (ensure_dir destination ;;
                let* children := readdirSync source in
                forEach children (fun childItemName =>
                  copyRecursiveSync fuel
                    (path_join source childItemName)
                    (path_join destination childItemName)
                    exclude)) w
           | File _ =>
               (ensure_dir (path_dirname destination) ;;
                copyFileSync source destination) w
           end
  end.
Proof.
  cbn [copyRecursiveSync]. unfold bind at 1. unfold existsSync at 1.
  destruct (files w !! source) as [n|] eqn:Hsrc.
  - rewrite bool_decide_eq_true_2 by eauto.
    unfold bind at 1. unfold bind at 1. unfold statSync. rewrite Hsrc.
    cbn [ret negb orb from_option].
    destruct (excluded exclude source); [reflexivity|].
    destruct n; reflexivity.
  - rewrite bool_decide_eq_false_2 by (intros [? ?]; discriminate).
    reflexivity.
Qed.

(** ** Excluded and missing sources *)

Lemma copy_skips_excluded (fuel : nat) (source destination : path)
    (exclude : list string) (w : world) :
  excluded exclude source = true ->
  copyRecursiveSync (S fuel) source destination exclude w = Ret tt w.
Proof.
  intros Hex. rewrite copy_step, Hex. now destruct (files w !! source).
Qed.

(** C3.  A source whose path relative to the template root is an entry [e]
    of the exclusion list, or lies below it ([e/...]), is skipped: the call
    returns at once, the world (file system and console) is the one it
    started from, nothing is thrown, and one unit of fuel is enough, so no
    child is visited. *)
Theorem copy_excluded_is_noop (fuel : nat) (source destination : path)
    (exclude : list string) (e : string) (w : world) :
  e ∈ exclude ->
  (path_relative TEMPLATE_DIR source = e \/
   exists rest, path_relative TEMPLATE_DIR source = e +:+ "/" +:+ rest) ->
  copyRecursiveSync (S fuel) source destination exclude w = Ret tt w.
Proof.
  intros Hin Hrel. apply copy_skips_excluded.
  apply (excluded_intro exclude source e Hin).
  unfold startsWith. destruct Hrel as [-> | [rest ->]].
  - apply prefix_refl.
  - apply prefix_append.
Qed.

(** The same by segments: with the path [es] excluded, nothing at
    [TEMPLATE_DIR/es] or below it is copied. *)
Corollary copy_skips_subtree (fuel : nat) (es rest destination : path)
    (exclude : list string) (w : world) :
  join_sep es ∈ exclude ->
  copyRecursiveSync (S fuel) (TEMPLATE_DIR ++ es ++ rest) destination exclude w
  = Ret tt w.
Proof.
  intros Hin. apply copy_skips_excluded.
  apply (excluded_intro exclude _ (join_sep es) Hin).
  rewrite path_relative_below. unfold startsWith.
  destruct (decide (rest = [])) as [-> | Hrest].
  { rewrite app_nil_r. apply prefix_refl. }
  destruct (decide (es = [])) as [-> | Hes]; [apply prefix_empty|].
  rewrite join_sep_app by done. apply prefix_append.
Qed.

(** C10.  With the empty string among the exclusions every source passes
    the prefix test, the template root (whose relative path is empty)
    included, and every call is a no-op. *)
Theorem copy_empty_exclusion_is_noop (exclude : list string) :
  "" ∈ exclude ->
  path_relative TEMPLATE_DIR TEMPLATE_DIR = "" /\
  (forall source, excluded exclude source = true) /\
  (forall fuel source destination w,
     copyRecursiveSync (S fuel) source destination exclude w = Ret tt w).
Proof.
  intros Hin.
  assert (Hall : forall source, excluded exclude source = true).
  { intros source. apply (excluded_intro exclude source "" Hin).
    apply prefix_empty. }
  split; [apply path_relative_self|]. split; [exact Hall|].
  intros fuel source destination w. now apply copy_skips_excluded.
Qed.

(** C5.  A source that is not on disk: the call returns normally and the
    world is untouched, the console included. The warning of line 71 is
    not printed. *)
Theorem copy_missing_source_is_silent (fuel : nat) (source destination : path)
    (exclude : list string) (w : world) :
  files w !! source = None ->
  copyRecursiveSync (S fuel) source destination exclude w = Ret tt w.
Proof.
  intros Hnone. rewrite copy_step.
  destruct (files w !! source) as [n|]; [discriminate | reflexivity].
Qed.

(** In the loop of [run] a missing entry costs its log line and nothing
    else: the entries after it are copied as if it had not been listed. *)
Lemma copyTemplateFiles_skips_missing (fuel : nat) (entry : string)
    (entries : list string) (targetDir : path) (exclude : list string)
    (w : world) :
  files w !! path_join TEMPLATE_DIR entry = None ->
  copyTemplateFiles (S fuel) (entry :: entries) targetDir exclude w =
  copyTemplateFiles (S fuel) entries targetDir exclude
    (with_line w (ConsoleLog ("Copying " +:+ entry +:+ "..."))).
Proof.
  intros Hnone. unfold copyTemplateFiles. cbn [forEach].
  unfold bind at 1. unfold bind at 1. unfold console_log at 1.
  rewrite copy_step. cbn [files with_line]. now rewrite Hnone.
Qed.

(** ** The frame of a copy *)

Lemma copy_effect_refl (src dst : path) (fs : gmap path node) :
  copy_effect src dst fs fs.
Proof. intros p. now left. Qed.

(** The source tree is out of reach of the changes. *)
Lemma copy_effect_source (src dst : path) (fs fs' : gmap path node)
    (rel : path) :
  disjoint_trees src dst ->
  copy_effect src dst fs fs' ->
  fs' !! (src ++ rel) = fs !! (src ++ rel).
Proof.
  intros [Hsd Hds] Heff.
  destruct (Heff (src ++ rel)) as [H | [(_ & _ & [H | H]) | (r & c & H & _)]].
  - exact H.
  - destruct Hsd. etrans; [|exact H]. now apply prefix_app_r.
  - destruct (prefix_weak_total src dst (src ++ rel)) as [|];
      [now apply prefix_app_r | exact H | contradiction | contradiction].
  - destruct (prefix_weak_total src dst (src ++ rel)) as [|];
      [now apply prefix_app_r | rewrite H; now apply prefix_app_r
      | contradiction | contradiction].
Qed.

Lemma copy_effect_trans (src dst : path) (fs0 fs1 fs2 : gmap path node) :
  disjoint_trees src dst ->
  copy_effect src dst fs0 fs1 ->
  copy_effect src dst fs1 fs2 ->
  copy_effect src dst fs0 fs2.
Proof.
  intros Hdis H01 H12 p.
  destruct (H12 p) as [E12 | [(N1 & D2 & Hp) | (rel & c & -> & S1 & F2 & ND1)]].
  - destruct (H01 p) as [E01 | [(N0 & D1 & Hp) | (rel & c & -> & S0 & F1 & ND0)]].
    + left. congruence.
    + right; left. rewrite E12. auto.
    + right; right. exists rel, c. rewrite E12. auto.
  - destruct (H01 p) as [E01 | [(N0 & D1 & _) | (rel & c & -> & S0 & F1 & ND0)]].
    + right; left. rewrite <- E01. auto.
    + congruence.
    + congruence.
  - right; right. exists rel, c.
    rewrite (copy_effect_source src dst fs0 fs1 rel Hdis H01) in S1.
    repeat split; [exact S1 | exact F2 |].
    destruct (H01 (dst ++ rel))
      as [E01 | [(N0 & D1 & _) | (rel' & c' & _ & _ & _ & ND0)]].
    + congruence.
    + congruence.
    + exact ND0.
Qed.

(** The effect of copying a child is an effect of copying its parent. *)
Lemma copy_effect_child (src dst : path) (name : string)
    (fs fs' : gmap path node) :
  copy_effect (path_join src name) (path_join dst name) fs fs' ->
  copy_effect src dst fs fs'.
Proof.
  unfold path_join. intros H p.
  destruct (H p) as [E | [(N & D & [Hp | Hp]) | (rel & c & -> & S0 & F & ND)]].
  - now left.
  - right; left. repeat split; [exact N | exact D |].
    destruct Hp as [k Hk]. destruct (decide (k = [])) as [-> | Hne].
    + right. exists [name]. now rewrite Hk, app_nil_r.
    + left. destruct (exists_last Hne) as (k' & x & ->).
      rewrite app_assoc in Hk. apply app_inj_tail in Hk as [-> _].
      now exists k'.
  - right; left. repeat split; [exact N | exact D |]. right.
    etrans; [|exact Hp]. now apply prefix_app_r.
  - right; right. exists (name :: rel), c.
    rewrite <- !app_assoc in *. simpl in *. auto.
Qed.

Lemma disjoint_trees_child (src dst : path) (name : string) :
  disjoint_trees src dst ->
  disjoint_trees (path_join src name) (path_join dst name).
Proof.
  assert (Hkey : forall a b : path,
             a ++ [name] `prefix_of` b ++ [name] -> a `prefix_of` b).
  { intros a b [k Hk]. destruct (decide (k = [])) as [-> | Hne].
    - rewrite app_nil_r in Hk. apply app_inj_tail in Hk as [-> _]. done.
    - destruct (exists_last Hne) as (k' & x & ->).
      rewrite !app_assoc in Hk. apply app_inj_tail in Hk as [-> _].
      rewrite <- app_assoc. now apply prefix_app_r. }
  unfold disjoint_trees, path_join. intros [H1 H2]. split; intros H.
  - apply H1. now apply Hkey.
  - apply H2. now apply Hkey.
Qed.

(** *** The primitives *)

(** [mkdir -p] adds directories where there was nothing, on the way to its
    target, and touches nothing else. *)
Lemma mkdir_walk_adds (rest base : path) (fs : gmap path node) (p : path) :
  walk_fs (mkdir_walk base rest fs) !! p = fs !! p
  \/ (fs !! p = None /\ walk_fs (mkdir_walk base rest fs) !! p = Some Dir /\
      p `prefix_of` base ++ rest).
Proof.
  revert base fs. induction rest as [|s rest IH]; intros base fs; simpl.
  - destruct (fs !! base) as [[|c]|] eqn:Hb; simpl; [now left | now left |].
    destruct (decide (p = base)) as [-> | Hne].
    + right. rewrite lookup_insert_eq, app_nil_r. auto.
    + left. now rewrite lookup_insert_ne.
  - destruct (fs !! base) as [[|c]|] eqn:Hb; simpl; [| now left |].
    + destruct (IH (base ++ [s]) fs) as [E | (N & D & Hp)]; [now left|].
      right. rewrite <- app_assoc in Hp. auto.
    + destruct (IH (base ++ [s]) (<[base := Dir]> fs)) as [E | (N & D & Hp)].
      * destruct (decide (p = base)) as [-> | Hne].
        -- right. rewrite E, lookup_insert_eq. repeat split; auto.
           now apply prefix_app_r.
        -- left. now rewrite E, lookup_insert_ne.
      * destruct (decide (p = base)) as [-> | Hne].
        -- now rewrite lookup_insert_eq in N.
        -- rewrite lookup_insert_ne in N by done.
           right. rewrite <- app_assoc in Hp. auto.
Qed.

Lemma final_world_bind {A B} (m : M A) (k : A -> M B) (w : world) :
  final_world (bind m k w) =
  match m w with
  | Ret a w' => final_world (k a w')
  | Throw _ w' | OutOfFuel w' => w'
  end.
Proof. unfold bind. now destruct (m w). Qed.

(** [ensure_dir] returns or throws, and leaves the console alone; its
    changes are those of [mkdir -p]. *)
Lemma ensure_dir_cases (d : path) (w : world) :
  exists fs',
    (ensure_dir d w = Ret tt (with_files w fs') \/
     exists e, ensure_dir d w = Throw e (with_files w fs')) /\
    (is_Some (files w !! d) -> ensure_dir d w = Ret tt w) /\
    forall p, fs' !! p = files w !! p
              \/ (files w !! p = None /\ fs' !! p = Some Dir /\
                  p `prefix_of` d).
Proof.
  unfold ensure_dir, bind, existsSync.
  destruct (decide (is_Some (files w !! d))) as [Hd | Hd].
  - rewrite bool_decide_eq_true_2 by done. exists (files w).
    destruct w as [fs cs]. simpl. repeat split; auto.
  - rewrite bool_decide_eq_false_2 by done. simpl.
    unfold mkdirSync_recursive.
    pose proof (mkdir_walk_adds d [] (files w)) as Hadd.
    destruct (mkdir_walk [] d (files w)) as [[e fs'] | fs']; simpl in Hadd;
      exists fs'; (split; [eauto | split; [intros; contradiction | exact Hadd]]).
Qed.

Lemma path_dirname_prefix (p : path) : path_dirname p `prefix_of` p.
Proof.
  unfold path_dirname. destruct (decide (p = [])) as [-> | Hne]; [done|].
  destruct (exists_last Hne) as (q & x & ->).
  rewrite removelast_last. now exists [x].
Qed.

Lemma adds_is_effect (src dst d : path) (fs fs' : gmap path node) :
  d `prefix_of` dst ->
  (forall p, fs' !! p = fs !! p
             \/ (fs !! p = None /\ fs' !! p = Some Dir /\ p `prefix_of` d)) ->
  copy_effect src dst fs fs'.
Proof.
  intros Hd Hadd p. destruct (Hadd p) as [E | (N & D & Hp)]; [now left|].
  right; left. repeat split; auto. left. by transitivity d.
Qed.

Lemma open_for_write_not_dir (p : path) (fs : gmap path node) :
  open_for_write p fs = None ->
  fs !! path_dirname p = Some Dir /\ fs !! p <> Some Dir.
Proof.
  unfold open_for_write.
  destruct (fs !! path_dirname p) as [[|c]|]; try discriminate.
  destruct (fs !! p) as [[|c]|]; try discriminate; intros _; split; congruence.
Qed.

(** *** The whole copy *)

(** Whatever the outcome (a return, an exception in the middle, or the
    fuel running out), the file system the copy leaves differs from the
    one it found only by the changes of [copy_change]. *)
Lemma copy_effect_holds (exclude : list string) (fuel : nat) :
  forall (src dst : path) (w : world),
    disjoint_trees src dst ->
    copy_effect src dst (files w)
      (files (final_world (copyRecursiveSync fuel src dst exclude w))).
Proof.
  induction fuel as [|fuel IH]; intros src dst w Hdis.
  { apply copy_effect_refl. }
  rewrite copy_step.
  destruct (files w !! src) as [n|] eqn:Hsrc; [|apply copy_effect_refl].
  destruct (excluded exclude src); [apply copy_effect_refl|].
  destruct n as [|c].
  - (* a directory *)
    rewrite final_world_bind.
    destruct (ensure_dir_cases dst w) as (fs1 & [Hr | [e Hr]] & _ & Hadd);
      rewrite Hr; [|now apply (adds_is_effect src dst dst)].
    assert (H01 : copy_effect src dst (files w) fs1)
      by now apply (adds_is_effect src dst dst).
    rewrite final_world_bind. unfold readdirSync. cbn [files with_files].
    destruct (fs1 !! src) as [[|c]|]; [| exact H01 | exact H01].
    apply (copy_effect_trans src dst _ fs1); [exact Hdis | exact H01 |].
    generalize (readdir_order fs1 src). intros children.
    change fs1 with (files (with_files w fs1)) at 1.
    generalize (with_files w fs1). clear H01 Hadd Hr Hsrc.
    induction children as [|name children IHc]; intros w1.
    { apply copy_effect_refl. }
    cbn [forEach]. rewrite final_world_bind.
    pose proof (IH (path_join src name) (path_join dst name) w1
                  (disjoint_trees_child src dst name Hdis)) as Hchild.
    apply copy_effect_child in Hchild.
    destruct (copyRecursiveSync fuel (path_join src name)
                (path_join dst name) exclude w1) as [[] w2 | e w2 | w2];
      cbn [final_world] in Hchild; [| exact Hchild | exact Hchild].
    apply (copy_effect_trans src dst _ (files w2)); [exact Hdis | exact Hchild |].
    apply IHc.
  - (* a regular file *)
    rewrite final_world_bind.
    destruct (ensure_dir_cases (path_dirname dst) w)
      as (fs1 & [Hr | [e Hr]] & _ & Hadd); rewrite Hr;
      [| now apply (adds_is_effect src dst (path_dirname dst));
         [apply path_dirname_prefix|] ].
    assert (H01 : copy_effect src dst (files w) fs1)
      by (apply (adds_is_effect src dst (path_dirname dst));
          [apply path_dirname_prefix | exact Hadd]).
    assert (Hsrc1 : fs1 !! src = Some (File c)).
    { destruct (Hadd src) as [E | (N & _)]; congruence. }
    unfold copyFileSync, bind, readFileSync. cbn [files with_files].
    rewrite Hsrc1. unfold writeFileSync. cbn [files with_files].
    destruct (open_for_write dst fs1) as [code|] eqn:Hopen; [exact H01|].
    apply open_for_write_not_dir in Hopen as [_ Hnd].
    cbn [final_world files with_files]. intros p.
    destruct (decide (p = dst)) as [-> | Hne].
    + right; right. exists [], c. rewrite !app_nil_r, lookup_insert_eq.
      repeat split; auto.
      destruct (Hadd dst) as [E | (N & _)]; congruence.
    + unfold copy_change. rewrite lookup_insert_ne by done. exact (H01 p).
Qed.

(** *** Trees that may overlap *)

Lemma copy_touch_refl (dst : path) (fs : gmap path node) : copy_touch dst fs fs.
Proof. intros p. now left. Qed.

Lemma copy_touch_trans (dst : path) (fs0 fs1 fs2 : gmap path node) :
  copy_touch dst fs0 fs1 -> copy_touch dst fs1 fs2 -> copy_touch dst fs0 fs2.
Proof.
  intros H01 H12 p.
  destruct (H12 p) as [E12 | [(N1 & D2 & Hp) | (Hp & ND1 & c & F2)]].
  - destruct (H01 p) as [E01 | [(N0 & D1 & Hp) | (Hp & ND0 & c & F1)]].
    + left. congruence.
    + right; left. rewrite E12. auto.
    + right; right. rewrite E12. eauto.
  - destruct (H01 p) as [E01 | [(N0 & D1 & _) | (_ & _ & c & F1)]].
    + right; left. rewrite <- E01. auto.
    + congruence.
    + congruence.
  - right; right. split; [exact Hp|]. split; [|eauto].
    destruct (H01 p) as [E01 | [(N0 & _) | (_ & ND0 & _)]]; congruence.
Qed.

Lemma copy_touch_child (dst : path) (name : string) (fs fs' : gmap path node) :
  copy_touch (path_join dst name) fs fs' -> copy_touch dst fs fs'.
Proof.
  unfold path_join. intros H p.
  assert (Hup : dst ++ [name] `prefix_of` p -> dst `prefix_of` p).
  { intros Hp. etrans; [|exact Hp]. now apply prefix_app_r. }
  destruct (H p) as [E | [(N & D & [Hp | Hp]) | (Hp & ND & F)]].
  - now left.
  - right; left. repeat split; [exact N | exact D |].
    destruct Hp as [k Hk]. destruct (decide (k = [])) as [-> | Hne].
    + right. exists [name]. now rewrite Hk, app_nil_r.
    + left. destruct (exists_last Hne) as (k' & x & ->).
      rewrite app_assoc in Hk. apply app_inj_tail in Hk as [-> _].
      now exists k'.
  - right; left. auto.
  - right; right. auto.
Qed.

Lemma adds_is_touch (dst d : path) (fs fs' : gmap path node) :
  d `prefix_of` dst ->
  (forall p, fs' !! p = fs !! p
             \/ (fs !! p = None /\ fs' !! p = Some Dir /\ p `prefix_of` d)) ->
  copy_touch dst fs fs'.
Proof.
  intros Hd Hadd p. destruct (Hadd p) as [E | (N & D & Hp)]; [now left|].
  right; left. repeat split; auto. left. by transitivity d.
Qed.

(** With no assumption on where source and destination lie. *)
Lemma copy_touch_holds (exclude : list string) (fuel : nat) :
  forall (src dst : path) (w : world),
    copy_touch dst (files w)
      (files (final_world (copyRecursiveSync fuel src dst exclude w))).
Proof.
  induction fuel as [|fuel IH]; intros src dst w.
  { apply copy_touch_refl. }
  rewrite copy_step.
  destruct (files w !! src) as [n|] eqn:Hsrc; [|apply copy_touch_refl].
  destruct (excluded exclude src); [apply copy_touch_refl|].
  destruct n as [|c].
  - rewrite final_world_bind.
    destruct (ensure_dir_cases dst w) as (fs1 & [Hr | [e Hr]] & _ & Hadd);
      rewrite Hr; [|now apply (adds_is_touch dst dst)].
    assert (H01 : copy_touch dst (files w) fs1)
      by now apply (adds_is_touch dst dst).
    rewrite final_world_bind. unfold readdirSync. cbn [files with_files].
    destruct (fs1 !! src) as [[|c]|]; [| exact H01 | exact H01].
    apply (copy_touch_trans dst _ fs1); [exact H01|].
    generalize (readdir_order fs1 src). intros children.
    change fs1 with (files (with_files w fs1)) at 1.
    generalize (with_files w fs1). clear H01 Hadd Hr Hsrc.
    induction children as [|name children IHc]; intros w1.
    { apply copy_touch_refl. }
    cbn [forEach]. rewrite final_world_bind.
    pose proof (IH (path_join src name) (path_join dst name) w1) as Hchild.
    apply copy_touch_child in Hchild.
    destruct (copyRecursiveSync fuel (path_join src name)
                (path_join dst name) exclude w1) as [[] w2 | e w2 | w2];
      cbn [final_world] in Hchild; [| exact Hchild | exact Hchild].
    apply (copy_touch_trans dst _ (files w2)); [exact Hchild | apply IHc].
  - rewrite final_world_bind.
    destruct (ensure_dir_cases (path_dirname dst) w)
      as (fs1 & [Hr | [e Hr]] & _ & Hadd); rewrite Hr;
      [| now apply (adds_is_touch dst (path_dirname dst));
         [apply path_dirname_prefix|] ].
    assert (H01 : copy_touch dst (files w) fs1)
      by (apply (adds_is_touch dst (path_dirname dst));
          [apply path_dirname_prefix | exact Hadd]).
    unfold copyFileSync, bind, readFileSync. cbn [files with_files].
    destruct (fs1 !! src) as [[|c']|]; [exact H01 | | exact H01].
    unfold writeFileSync. cbn [files with_files].
    destruct (open_for_write dst fs1) as [code|] eqn:Hopen; [exact H01|].
    apply open_for_write_not_dir in Hopen as [_ Hnd].
    cbn [final_world files with_files]. intros p.
    destruct (decide (p = dst)) as [-> | Hne].
    + right; right. rewrite lookup_insert_eq.
      split; [done|]. split; [|eauto].
      destruct (Hadd dst) as [E | (N & _)]; congruence.
    + rewrite lookup_insert_ne by done. exact (H01 p).
Qed.

(** C8.  An entry that was in the file system before the copy is still
    there after it; a directory is still a directory; an entry outside the
    destination tree is as it was; and, when source and destination trees
    do not overlap, so is every entry that is not the image [dst/rel] of a
    regular file [src/rel] of the source.  This holds for whatever the
    copy left behind: on return, and also when it threw midway or ran out
    of fuel. *)
Theorem copy_keeps_other_entries (exclude : list string) (fuel : nat)
    (src dst : path) (w : world) (p : path) (n : node) :
  files w !! p = Some n ->
  let after := files (final_world (copyRecursiveSync fuel src dst exclude w)) in
  is_Some (after !! p) /\
  (n = Dir -> after !! p = Some Dir) /\
  (~ dst `prefix_of` p -> after !! p = Some n) /\
  (disjoint_trees src dst ->
   (forall (rel : path) (c : string),
      p = dst ++ rel -> files w !! (src ++ rel) <> Some (File c)) ->
   after !! p = Some n).
Proof.
  intros Hp after. subst after.
  pose proof (copy_touch_holds exclude fuel src dst w p) as Htouch.
  repeat split.
  - destruct Htouch as [E | [(N & _) | (_ & _ & c & F)]];
      [rewrite E, Hp; eauto | congruence | rewrite F; eauto].
  - intros ->. destruct Htouch as [E | [(N & _) | (_ & ND & _)]]; congruence.
  - intros Hout. destruct Htouch as [E | [(N & _) | (Hin & _)]];
      [congruence | congruence | contradiction].
  - intros Hdis Hnot.
    destruct (copy_effect_holds exclude fuel src dst w Hdis p)
      as [E | [(N & _) | (rel & c & -> & S0 & F & _)]].
    + congruence.
    + congruence.
    + now destruct (Hnot rel c).
Qed.

(** The copy prints nothing: not on return, not when it throws. *)
Lemma copy_console (exclude : list string) (fuel : nat) :
  forall (src dst : path) (w : world),
    console (final_world (copyRecursiveSync fuel src dst exclude w)) = console w.
Proof.
  induction fuel as [|fuel IH]; intros src dst w; [reflexivity|].
  rewrite copy_step.
  destruct (files w !! src) as [n|]; [|reflexivity].
  destruct (excluded exclude src); [reflexivity|].
  destruct n as [|c]; rewrite final_world_bind.
  - destruct (ensure_dir_cases dst w) as (fs1 & [Hr | [e Hr]] & _ & _);
      rewrite Hr; [|reflexivity].
    rewrite final_world_bind. unfold readdirSync. cbn [files with_files].
    destruct (fs1 !! src) as [[|c]|]; [| reflexivity | reflexivity].
    generalize (readdir_order fs1 src). intros children.
    change (console w) with (console (with_files w fs1)).
    generalize (with_files w fs1). clear Hr.
    induction children as [|name children IHc]; intros w1; [reflexivity|].
    cbn [forEach]. rewrite final_world_bind.
    pose proof (IH (path_join src name) (path_join dst name) w1) as Hchild.
    destruct (copyRecursiveSync fuel (path_join src name)
                (path_join dst name) exclude w1) as [[] w2 | e w2 | w2];
      cbn [final_world] in Hchild; [| exact Hchild | exact Hchild].
    now rewrite IHc.
  - destruct (ensure_dir_cases (path_dirname dst) w)
      as (fs1 & [Hr | [e Hr]] & _ & _); rewrite Hr; [|reflexivity].
    unfold copyFileSync, bind, readFileSync, writeFileSync.
    cbn [files with_files].
    destruct (fs1 !! src) as [[|c']|]; try reflexivity.
    now destruct (open_for_write dst (files (with_files w fs1))).
Qed.

(** ** Copying again *)

Lemma lookup_max_depth (fs : gmap path node) (p : path) (n : node) :
  fs !! p = Some n -> length p <= max_depth fs.
Proof.
  intros Hp. apply max_list_elem_of_le.
  apply elem_of_map_to_list in Hp.
  apply (list_elem_of_fmap_2 (fun e : path * node => length e.1)) in Hp.
  exact Hp.
Qed.

Lemma reached_child (exclude : list string) (fs : gmap path node)
    (src : path) (name : string) (rel : path) :
  excluded exclude src = false ->
  fs !! src = Some Dir ->
  reached exclude fs (path_join src name) rel ->
  reached exclude fs src (name :: rel).
Proof.
  unfold path_join. intros Hex Hdir Hreach pre [k Hk].
  destruct pre as [|x pre].
  - rewrite app_nil_r. auto.
  - simpl in Hk. injection Hk as <- ->.
    destruct (Hreach pre) as [He Hd]; [now exists k|].
    rewrite <- app_assoc in He, Hd. simpl in He, Hd.
    split; [exact He|]. intros Hne. apply Hd. congruence.
Qed.

Lemma holds_copy_child (exclude : list string) (src dst : path)
    (name : string) (fs : gmap path node) :
  excluded exclude src = false ->
  fs !! src = Some Dir ->
  holds_copy exclude src dst fs ->
  holds_copy exclude (path_join src name) (path_join dst name) fs.
Proof.
  intros Hex Hdir H rel Hreach. unfold path_join.
  rewrite <- !app_assoc. apply H. now apply reached_child.
Qed.

Lemma world_same_files (w : world) (p : path) (n : node) :
  files w !! p = Some n -> with_files w (<[p := n]> (files w)) = w.
Proof. intros H. destruct w as [fs cs]. unfold with_files. simpl in *.
  now rewrite insert_id. Qed.

(** With a complete copy in place a second run changes nothing.  The fuel
    asked for is the depth of the file system below [src], plus one for
    the call itself and one for the names listed last. *)
Lemma copy_again_is_noop (exclude : list string) (w : world) (fuel : nat) :
  forall src dst : path,
    holds_copy exclude src dst (files w) ->
    1 <= fuel ->
    max_depth (files w) + 2 <= fuel + length src ->
    copyRecursiveSync fuel src dst exclude w = Ret tt w.
Proof.
  induction fuel as [|fuel IH]; intros src dst Hholds Hone Hfuel; [lia|].
  rewrite copy_step.
  destruct (files w !! src) as [n|] eqn:Hsrc; [|reflexivity].
  destruct (excluded exclude src) eqn:Hex; [reflexivity|].
  assert (Hhere : mirrors (files w) src dst).
  { specialize (Hholds []). rewrite !app_nil_r in Hholds. apply Hholds.
    intros pre [k Hk]. symmetry in Hk. apply app_eq_nil in Hk as [-> _].
    rewrite app_nil_r. split; [exact Hex | congruence]. }
  unfold mirrors in Hhere. rewrite Hsrc in Hhere.
  pose proof (lookup_max_depth _ _ _ Hsrc) as Hdepth.
  destruct n as [|c].
  - destruct (ensure_dir_cases dst w) as (_ & _ & Hr & _).
    unfold bind at 1. rewrite Hr by eauto.
    unfold bind at 1. unfold readdirSync. rewrite Hsrc.
    generalize (readdir_order (files w) src). intros children.
    induction children as [|name children IHc]; [reflexivity|].
    cbn [forEach]. unfold bind at 1. rewrite IH; [exact IHc | | lia |].
    + now apply holds_copy_child.
    + unfold path_join. rewrite length_app. simpl. lia.
  - destruct Hhere as [Hdst Hparent].
    destruct (ensure_dir_cases (path_dirname dst) w) as (_ & _ & Hr & _).
    unfold bind at 1. rewrite Hr by eauto.
    unfold copyFileSync, bind, readFileSync, writeFileSync, open_for_write.
    rewrite Hsrc, Hparent, Hdst. now rewrite world_same_files.
Qed.

(** C7.  Run against a destination that already holds a complete copy of
    what the copy reaches (a directory where the source has one, the same
    bytes where it has a file), the copy returns without an exception and
    leaves the whole world, the destination included, as it was: no
    directory is made, and every file is rewritten with the bytes it has.
    Any fuel above the depth of the file system will do. *)
Theorem copy_rerun_is_idempotent (exclude : list string) (src dst : path)
    (w : world) (fuel : nat) :
  holds_copy exclude src dst (files w) ->
  max_depth (files w) + 2 <= fuel ->
  copyRecursiveSync fuel src dst exclude w = Ret tt w.
Proof.
  intros Hholds Hfuel. apply copy_again_is_noop; [exact Hholds | lia | lia].
Qed.

(** ** A first run leaves a complete copy *)

Lemma mkdir_walk_target (rest base : path) (fs fs' : gmap path node) :
  mkdir_walk base rest fs = inr fs' -> fs' !! (base ++ rest) = Some Dir.
Proof.
  revert base fs. induction rest as [|s rest IH]; intros base fs; simpl.
  - rewrite app_nil_r.
    destruct (fs !! base) as [[|c]|] eqn:Hb; intros [= <-]; [exact Hb|].
    apply lookup_insert_eq.
  - replace (base ++ s :: rest) with ((base ++ [s]) ++ rest)
      by now rewrite <- app_assoc.
    destruct (fs !! base) as [[|c]|]; [apply IH | discriminate | apply IH].
Qed.

Lemma ensure_dir_ret (d : path) (w w1 : world) :
  ensure_dir d w = Ret tt w1 ->
  is_Some (files w1 !! d) /\
  forall p, files w1 !! p = files w !! p
            \/ (files w !! p = None /\ files w1 !! p = Some Dir /\
                p `prefix_of` d).
Proof.
  intros Hret. split.
  - revert Hret. unfold ensure_dir, bind, existsSync.
    destruct (decide (is_Some (files w !! d))) as [Hd | Hd].
    + rewrite bool_decide_eq_true_2 by done. now intros [= <-].
    + rewrite bool_decide_eq_false_2 by done. cbn [negb].
      unfold mkdirSync_recursive.
      destruct (mkdir_walk [] d (files w)) as [[e fs'] | fs'] eqn:Hwalk;
        [discriminate|].
      intros [= <-]. cbn [files with_files].
      apply mkdir_walk_target in Hwalk. simpl in Hwalk. rewrite Hwalk. eauto.
  - destruct (ensure_dir_cases d w) as (fs' & [Hr | [e Hr]] & _ & Hadd);
      rewrite Hr in Hret; [|discriminate].
    injection Hret as <-. exact Hadd.
Qed.

Lemma path_dirname_fixed (p : path) : path_dirname p = p -> p = [].
Proof.
  unfold path_dirname. destruct (decide (p = [])) as [-> | Hne]; [done|].
  destruct (exists_last Hne) as (q & x & ->). rewrite removelast_last.
  intros Hq. apply (f_equal length) in Hq. rewrite length_app in Hq.
  simpl in Hq. lia.
Qed.

(** The loop over the children of a directory has the effect of a copy of
    the directory. *)
Lemma forEach_effect (exclude : list string) (fuel : nat) (src dst : path)
    (children : list string) :
  disjoint_trees src dst ->
  forall w,
    copy_effect src dst (files w)
      (files (final_world
         (forEach children (fun childItemName =>
            copyRecursiveSync fuel (path_join src childItemName)
              (path_join dst childItemName) exclude) w))).
Proof.
  intros Hdis. induction children as [|name children IHc]; intros w.
  { apply copy_effect_refl. }
  cbn [forEach]. rewrite final_world_bind.
  pose proof (copy_effect_holds exclude fuel (path_join src name)
                (path_join dst name) w
                (disjoint_trees_child src dst name Hdis)) as Hchild.
  apply copy_effect_child in Hchild.
  destruct (copyRecursiveSync fuel (path_join src name)
              (path_join dst name) exclude w) as [[] w2 | e w2 | w2];
    cbn [final_world] in Hchild; [| exact Hchild | exact Hchild].
  apply (copy_effect_trans src dst _ (files w2)); [exact Hdis | exact Hchild |].
  apply IHc.
Qed.

(** In a loop that returns, every child has been copied, between two
    stretches that have the effect of a copy. *)
Lemma forEach_processed (exclude : list string) (fuel : nat) (src dst : path)
    (children : list string) (name : string) :
  disjoint_trees src dst ->
  name ∈ children ->
  forall w w',
    forEach children (fun childItemName =>
      copyRecursiveSync fuel (path_join src childItemName)
        (path_join dst childItemName) exclude) w = Ret tt w' ->
    exists wa wb,
      copyRecursiveSync fuel (path_join src name) (path_join dst name)
        exclude wa = Ret tt wb /\
      copy_effect src dst (files w) (files wa) /\
      copy_effect src dst (files wb) (files w').
Proof.
  intros Hdis. induction children as [|x children IHc]; intros Hin w w' Hrun.
  { now apply elem_of_nil in Hin. }
  cbn [forEach] in Hrun. unfold bind in Hrun.
  destruct (copyRecursiveSync fuel (path_join src x) (path_join dst x)
              exclude w) as [[] w2 | e w2 | w2] eqn:Hx; try discriminate.
  assert (Hfirst : copy_effect src dst (files w) (files w2)).
  { pose proof (copy_effect_holds exclude fuel (path_join src x)
                  (path_join dst x) w
                  (disjoint_trees_child src dst x Hdis)) as H.
    rewrite Hx in H. now apply copy_effect_child in H. }
  assert (Hrest : copy_effect src dst (files w2) (files w')).
  { pose proof (forEach_effect exclude fuel src dst children Hdis w2) as H.
    now rewrite Hrun in H. }
  apply elem_of_cons in Hin as [-> | Hin].
  - exists w, w2. split; [exact Hx|]. split; [apply copy_effect_refl | exact Hrest].
  - destruct (IHc Hin w2 w' Hrun) as (wa & wb & Hc & Ha & Hb).
    exists wa, wb. split; [exact Hc|]. split; [|exact Hb].
    now apply (copy_effect_trans src dst _ (files w2)).
Qed.

Lemma mirrors_preserved (src dst rel : path) (fs fs' : gmap path node) :
  disjoint_trees src dst ->
  copy_effect src dst fs fs' ->
  mirrors fs (src ++ rel) (dst ++ rel) ->
  mirrors fs' (src ++ rel) (dst ++ rel).
Proof.
  intros Hdis Heff. unfold mirrors.
  rewrite (copy_effect_source src dst fs fs' rel Hdis Heff).
  destruct (fs !! (src ++ rel)) as [[|c]|] eqn:Hsrc; [| |done].
  - intros [n Hn].
    destruct (Heff (dst ++ rel)) as [E | [(_ & D & _) | (r & c & _ & _ & F & _)]].
    + rewrite E, Hn. eauto.
    + rewrite D. eauto.
    + rewrite F. eauto.
  - intros [Hd Hparent]. split.
    + destruct (Heff (dst ++ rel))
        as [E | [(N & _) | (r & c' & Hr & S0 & F & _)]]; [congruence.. |].
      apply app_inv_head in Hr as <-. congruence.
    + destruct (Heff (path_dirname (dst ++ rel)))
        as [E | [(N & _) | (r & c' & _ & _ & _ & ND)]]; congruence.
Qed.

Lemma reached_source (exclude : list string) (src dst rel : path)
    (fs fs' : gmap path node) :
  disjoint_trees src dst ->
  copy_effect src dst fs fs' ->
  reached exclude fs' src rel -> reached exclude fs src rel.
Proof.
  intros Hdis Heff Hreach pre Hpre.
  destruct (Hreach pre Hpre) as [He Hd]. split; [exact He|].
  intros Hne. rewrite <- (copy_effect_source src dst fs fs' pre Hdis Heff).
  now apply Hd.
Qed.

Lemma reached_tail (exclude : list string) (fs : gmap path node)
    (src : path) (name : string) (rel : path) :
  reached exclude fs src (name :: rel) ->
  reached exclude fs (path_join src name) rel.
Proof.
  unfold path_join. intros Hreach pre Hpre.
  destruct (Hreach (name :: pre)) as [He Hd]; [now apply prefix_cons|].
  rewrite <- !app_assoc. simpl. split; [exact He|].
  intros Hne. apply Hd. congruence.
Qed.

(** After a copy that returned, to a destination that does not overlap the
    source, the destination holds a complete copy. *)
Lemma copy_establishes_holds_copy (exclude : list string) (fuel : nat) :
  lists_all_entries ->
  forall (src dst : path) (w w' : world),
    disjoint_trees src dst ->
    copyRecursiveSync fuel src dst exclude w = Ret tt w' ->
    holds_copy exclude src dst (files w').
Proof.
  intros Hlist. induction fuel as [|fuel IH]; intros src dst w w' Hdis Hrun;
    [discriminate|].
  pose proof (copy_effect_holds exclude (S fuel) src dst w Hdis) as Hall.
  rewrite Hrun in Hall. cbn [final_world] in Hall.
  assert (Hsame : forall rel, files w' !! (src ++ rel) = files w !! (src ++ rel)).
  { intros rel. now apply (copy_effect_source src dst). }
  assert (Hsrc' : files w' !! src = files w !! src).
  { specialize (Hsame []). now rewrite app_nil_r in Hsame. }
  assert (Htop : forall rel, reached exclude (files w') src rel ->
                 excluded exclude src = false /\
                 (rel <> [] -> files w !! src = Some Dir)).
  { intros rel Hreach. destruct (Hreach []) as [He Hd]; [apply prefix_nil|].
    rewrite app_nil_r in He, Hd. split; [exact He|].
    intros Hne. rewrite <- Hsrc'. apply Hd. congruence. }
  rewrite copy_step in Hrun.
  destruct (files w !! src) as [n|] eqn:Hsrc.
  2: { intros rel Hreach. destruct (Htop rel Hreach) as [_ Hd].
       destruct rel as [|x rel]; [|now specialize (Hd ltac:(discriminate))].
       unfold mirrors. now rewrite !app_nil_r, Hsrc'. }
  destruct (excluded exclude src) eqn:Hex.
  { intros rel Hreach. now destruct (Htop rel Hreach). }
  destruct n as [|c].
  - (* a directory *)
    unfold bind at 1 in Hrun.
    destruct (ensure_dir dst w) as [[] w1 | e w1 | w1] eqn:Hens;
      try discriminate.
    apply ensure_dir_ret in Hens as [Hdst Hadd].
    assert (H01 : copy_effect src dst (files w) (files w1))
      by now apply (adds_is_effect src dst dst).
    unfold bind at 1 in Hrun. unfold readdirSync in Hrun.
    assert (Hsrc1 : files w1 !! src = Some Dir).
    { pose proof (copy_effect_source src dst _ _ [] Hdis H01) as H.
      rewrite app_nil_r in H. congruence. }
    rewrite Hsrc1 in Hrun.
    pose proof (forEach_effect exclude fuel src dst
                  (readdir_order (files w1) src) Hdis w1) as H1'.
    rewrite Hrun in H1'. cbn [final_world] in H1'.
    intros rel Hreach. destruct rel as [|name rel].
    + unfold mirrors. rewrite !app_nil_r, Hsrc'.
      destruct Hdst as [n Hn].
      destruct (H1' dst) as [E | [(_ & D & _) | (r & c & _ & _ & F & _)]].
      * rewrite E, Hn. eauto.
      * rewrite D. eauto.
      * rewrite F. eauto.
    + destruct (files w' !! (src ++ name :: rel)) as [n|] eqn:Hentry;
        [|unfold mirrors; now rewrite Hentry].
      assert (Hchild : is_Some (files w1 !! (src ++ [name]))).
      { rewrite (copy_effect_source src dst _ _ [name] Hdis H01).
        rewrite <- Hsame. destruct rel as [|y rel]; [eauto|].
        destruct (Hreach [name]) as [_ Hd];
          [now apply prefix_cons, prefix_nil|].
        rewrite Hd by discriminate. eauto. }
      apply Hlist in Hchild.
      destruct (forEach_processed exclude fuel src dst _ name Hdis Hchild
                  w1 w' Hrun) as (wa & wb & Hc & Ha & Hb).
      apply IH in Hc; [|now apply disjoint_trees_child].
      specialize (Hc rel). unfold path_join in Hc.
      rewrite <- !app_assoc in Hc. simpl in Hc.
      apply (mirrors_preserved src dst (name :: rel) (files wb));
        [exact Hdis | exact Hb |].
      apply Hc. apply reached_tail.
      now apply (reached_source exclude src dst _ _ (files w')).
  - (* a regular file *)
    intros rel Hreach. destruct (Htop rel Hreach) as [_ Hd].
    destruct rel as [|x rel]; [|now specialize (Hd ltac:(discriminate))].
    unfold bind at 1 in Hrun.
    destruct (ensure_dir (path_dirname dst) w) as [[] w1 | e w1 | w1] eqn:Hens;
      try discriminate.
    apply ensure_dir_ret in Hens as [_ Hadd].
    assert (Hsrc1 : files w1 !! src = Some (File c)).
    { destruct (Hadd src) as [E | (N & _)]; congruence. }
    unfold copyFileSync, bind, readFileSync, writeFileSync in Hrun.
    rewrite Hsrc1 in Hrun.
    destruct (open_for_write dst (files w1)) as [code|] eqn:Hopen;
      [discriminate|].
    injection Hrun as <-. cbn [files with_files].
    apply open_for_write_not_dir in Hopen as [Hparent Hnd].
    unfold mirrors. rewrite !app_nil_r.
    assert (Hne : dst <> src).
    { intros ->. now destruct Hdis as [[] _]. }
    rewrite lookup_insert_ne, Hsrc1, lookup_insert_eq by done.
    split; [reflexivity|].
    rewrite lookup_insert_ne; [exact Hparent|].
    intros Heq. symmetry in Heq. apply path_dirname_fixed in Heq as ->.
    simpl in Hparent. congruence.
Qed.

(** Two runs in a row: what the first one returns, the second one finds
    complete and leaves alone. *)
Corollary copy_twice (exclude : list string) (fuel fuel' : nat)
    (src dst : path) (w w' : world) :
  lists_all_entries ->
  disjoint_trees src dst ->
  copyRecursiveSync fuel src dst exclude w = Ret tt w' ->
  max_depth (files w') + 2 <= fuel' ->
  copyRecursiveSync fuel' src dst exclude w' = Ret tt w'.
Proof.
  intros Hlist Hdis Hrun Hfuel. apply copy_again_is_noop; [| lia | lia].
  now apply (copy_establishes_holds_copy exclude fuel Hlist src dst w).
Qed.

Lemma strip_prefix_app (p rel : path) : strip_prefix p (p ++ rel) = Some rel.
Proof.
  induction p as [|s p IH]; simpl; [reflexivity|].
  now rewrite String.eqb_refl.
Qed.

Lemma prefixes_sound (l pre : path) : pre ∈ prefixes l -> pre `prefix_of` l.
Proof.
  revert pre. induction l as [|x l IH]; intros pre; simpl.
  - intros ->%list_elem_of_singleton. done.
  - intros [-> | Hin]%elem_of_cons; [apply prefix_nil|].
    apply list_elem_of_fmap in Hin as (pre' & -> & Hin').
    apply prefix_cons. now apply IH.
Qed.

Lemma mirrorsb_sound (fs : gmap path node) (s d : path) :
  mirrorsb fs s d = true -> mirrors fs s d.
Proof.
  unfold mirrorsb, mirrors. destruct (fs !! s) as [[|c]|]; [| |done].
  - intros H. now apply bool_decide_eq_true in H.
  - intros [H1 H2]%andb_true_iff.
    apply bool_decide_eq_true in H1. apply bool_decide_eq_true in H2. done.
Qed.

Lemma holds_copyb_sound (exclude : list string) (src dst : path)
    (fs : gmap path node) :
  holds_copyb exclude src dst fs = true -> holds_copy exclude src dst fs.
Proof.
  unfold holds_copyb. intros Hall rel Hreach.
  destruct (fs !! (src ++ rel)) as [n|] eqn:Hsrc;
    [|unfold mirrors; now rewrite Hsrc].
  rewrite forallb_forall in Hall.
  specialize (Hall (src ++ rel, n)).
  cbn [fst] in Hall. rewrite strip_prefix_app in Hall.
  assert (Hr : reachedb exclude fs src rel = true).
  { unfold reachedb. apply forallb_forall. intros pre Hpre.
    apply list_elem_of_In in Hpre.
    destruct (Hreach pre (prefixes_sound rel pre Hpre)) as [He Hd].
    rewrite He. cbn [negb andb].
    destruct (decide (pre = rel)) as [Heq | Hne].
    - now rewrite (bool_decide_eq_true_2 _ Heq).
    - rewrite (bool_decide_eq_true_2 _ (Hd Hne)). apply orb_true_r. }
  rewrite Hr in Hall. apply mirrorsb_sound. apply Hall.
  apply list_elem_of_In. now apply elem_of_map_to_list.
Qed.

Lemma prefixes_complete (l pre : path) : pre `prefix_of` l -> pre ∈ prefixes l.
Proof.
  revert pre. induction l as [|x l IH]; intros pre Hpre.
  - apply prefix_nil_inv in Hpre as ->. simpl. apply list_elem_of_here.
  - destruct pre as [|y pre]; [simpl; apply list_elem_of_here|].
    pose proof (prefix_cons_inv_1 _ _ _ _ Hpre) as ->.
    apply prefix_cons_inv_2 in Hpre.
    simpl. apply list_elem_of_further. apply list_elem_of_fmap.
    exists pre. split; [reflexivity | now apply IH].
Qed.

Lemma reachedb_sound (exclude : list string) (fs : gmap path node)
    (src rel : path) :
  reachedb exclude fs src rel = true -> reached exclude fs src rel.
Proof.
  unfold reachedb. rewrite forallb_forall. intros Hall pre Hpre.
  specialize (Hall pre).
  apply prefixes_complete, list_elem_of_In in Hpre. specialize (Hall Hpre).
  apply andb_true_iff in Hall as [He Hd]. apply negb_true_iff in He.
  split; [exact He|]. intros Hne.
  apply orb_true_iff in Hd as [Hd | Hd].
  - apply bool_decide_eq_true in Hd. contradiction.
  - now apply bool_decide_eq_true in Hd.
Qed.

(** ** The manifest *)

Lemma rewriteManifest_steps (targetDir : path) (answers packageJson : object) :
  rewriteManifest targetDir answers packageJson =
  fix_build (set_identity targetDir answers packageJson).
Proof.
  unfold rewriteManifest, fix_build. fold (set_identity targetDir answers packageJson).
  destruct (obj_get "scripts" (set_identity targetDir answers packageJson))
    as [[| | | | |s]|]; simpl; try reflexivity.
  - now destruct b.
  - now destruct (negb _).
  - now destruct (negb _).
Qed.

Lemma fix_build_other (k : string) (packageJson : object) :
  k <> "scripts" -> obj_get k (fix_build packageJson) = obj_get k packageJson.
Proof.
  intros Hne. unfold fix_build.
  destruct (obj_get "scripts" packageJson) as [[| | | | |s]|]; try reflexivity.
  destruct (truthy (obj_get "build" s)); [|reflexivity].
  now apply obj_get_set_ne.
Qed.

Lemma set_identity_scripts (targetDir : path) (answers packageJson : object) :
  obj_get "scripts" (set_identity targetDir answers packageJson) =
  obj_get "scripts" packageJson.
Proof. unfold set_identity. now obj_lookup. Qed.

Lemma rewriteManifest_name (targetDir : path) (answers packageJson : object) :
  obj_get "name" (rewriteManifest targetDir answers packageJson) =
  Some (js_or (obj_get "projectName" answers) (JStr (path_basename targetDir))).
Proof.
  rewrite rewriteManifest_steps, fix_build_other by discriminate.
  unfold set_identity. now obj_lookup.
Qed.

Lemma rewriteManifest_version (targetDir : path) (answers packageJson : object) :
  obj_get "version" (rewriteManifest targetDir answers packageJson) =
  Some (JStr "0.1.0").
Proof.
  rewrite rewriteManifest_steps, fix_build_other by discriminate.
  unfold set_identity. now obj_lookup.
Qed.

Lemma rewriteManifest_dropped (targetDir : path) (answers packageJson : object)
    (k : string) :
  k ∈ ["bin"; "author"; "repository"; "bugs"; "homepage"] ->
  obj_get k (rewriteManifest targetDir answers packageJson) = None.
Proof.
  intros Hk. rewrite rewriteManifest_steps.
  repeat (apply elem_of_cons in Hk as [-> | Hk]);
    [ .. | now apply elem_of_nil in Hk ];
    rewrite fix_build_other by discriminate;
    unfold set_identity; now obj_lookup.
Qed.

Lemma updatePackageJson_object (targetDir : path) (answers : object)
    (w : world) (text : string) (fields : object) :
  files w !! path_join TEMPLATE_DIR "package.json" = Some (File text) ->
  JSON_parse text = Some (JObj fields) ->
  updatePackageJson targetDir answers w =
  let packageJsonPath := path_join targetDir "package.json" in
  let data := JSON_stringify (JObj (rewriteManifest targetDir answers fields)) in
  match open_for_write packageJsonPath (files w) with
  | Some code =>
      Ret tt (with_line w (ConsoleError "Error updating package.json: "
                             (FsError code packageJsonPath)))
  | None =>
      Ret tt (with_line
                (with_files w (<[packageJsonPath := File data]> (files w)))
                (ConsoleLog "Updated package.json successfully."))
  end.
Proof.
  intros Htext Hparse.
  unfold updatePackageJson, try_catch, bind, readFileSync.
  rewrite Htext, Hparse. cbn [ret modifyPackageJson]. unfold writeFileSync.
  now destruct (open_for_write (path_join targetDir "package.json") (files w)).
Qed.

Lemma updatePackageJson_writes (targetDir : path) (answers : object)
    (w : world) (text : string) (fields : object) :
  files w !! path_join TEMPLATE_DIR "package.json" = Some (File text) ->
  JSON_parse text = Some (JObj fields) ->
  open_for_write (path_join targetDir "package.json") (files w) = None ->
  writes_manifest targetDir answers w (rewriteManifest targetDir answers fields).
Proof.
  intros Htext Hparse Hopen. unfold writes_manifest.
  rewrite (updatePackageJson_object targetDir answers w text fields Htext Hparse).
  cbn zeta. now rewrite Hopen.
Qed.

(** [a || b], case by case. *)
Lemma js_or_truthy (a : option json) (b : json) :
  truthy a = true -> Some (js_or a b) = a.
Proof. intros Ht. unfold js_or. rewrite Ht. now destruct a. Qed.

Lemma js_or_falsy (a : option json) (b : json) :
  truthy a = false -> js_or a b = b.
Proof. intros Hf. unfold js_or. rewrite Hf. now destruct a. Qed.

Lemma truthy_string (s : string) : s <> "" -> truthy (Some (JStr s)) = true.
Proof. intros Hne. unfold truthy. now destruct (String.eqb_spec s ""). Qed.

(** Line 88 on the rewrite. *)
Lemma rewriteManifest_name_cases (targetDir : path) (answers fields : object) :
  let name := obj_get "name" (rewriteManifest targetDir answers fields) in
  let projectName := obj_get "projectName" answers in
  (truthy projectName = true -> name = projectName) /\
  (forall s, projectName = Some (JStr s) -> s <> "" -> name = Some (JStr s)) /\
  (truthy projectName = false ->
   name = Some (JStr (path_basename targetDir))) /\
  ((exists s, projectName = Some (JStr s) /\ s <> "") \/
   (truthy projectName = false /\ path_basename targetDir <> "") ->
   exists s, name = Some (JStr s) /\ s <> "").
Proof.
  intros name projectName. subst name projectName.
  rewrite rewriteManifest_name.
  assert (Hstr : forall s, obj_get "projectName" answers = Some (JStr s) ->
                 s <> "" ->
                 Some (js_or (obj_get "projectName" answers)
                         (JStr (path_basename targetDir))) = Some (JStr s)).
  { intros s Hs Hne. rewrite js_or_truthy; [exact Hs|].
    rewrite Hs. now apply truthy_string. }
  split; [|split; [|split]].
  - apply js_or_truthy.
  - exact Hstr.
  - intros Hf. now rewrite js_or_falsy.
  - intros [(s & Hs & Hne) | (Hf & Hbase)].
    + exists s. split; [now apply Hstr | exact Hne].
    + exists (path_basename targetDir). now rewrite js_or_falsy.
Qed.

(** Lines 102-105 on the rewrite. *)
Lemma rewriteManifest_build (targetDir : path) (answers fields : object) :
  (forall cmd, build_script fields = Some (JStr cmd) -> cmd <> "" ->
     build_script (rewriteManifest targetDir answers fields) =
     Some (JStr "tsc")) /\
  (build_script fields = None ->
   build_script (rewriteManifest targetDir answers fields) = None).
Proof.
  unfold build_script. rewrite rewriteManifest_steps.
  pose proof (set_identity_scripts targetDir answers fields) as Hscripts.
  revert Hscripts. generalize (set_identity targetDir answers fields).
  intros base Hscripts. unfold fix_build. rewrite Hscripts.
  split.
  - intros cmd Hcmd Hne.
    destruct (obj_get "scripts" fields) as [[| | | | |s]|]; try discriminate.
    simpl in Hcmd. rewrite Hcmd. unfold truthy.
    destruct (String.eqb_spec cmd ""); [contradiction|]. cbn [negb].
    rewrite obj_get_set_eq. simpl. apply obj_get_set_eq.
  - intros Hnone.
    destruct (obj_get "scripts" fields) as [[| | | | |s]|];
      rewrite ?Hscripts; try reflexivity.
    simpl in Hnone. rewrite Hnone. cbn [truthy]. now rewrite Hscripts.
Qed.

(** C2, as the script has it.  For a template manifest that is an object
    and a destination that can be written, whatever the answers are, the
    manifest [updatePackageJson] writes has version 0.1.0 whatever the
    template's version, and no [bin], [author], [repository], [bugs] or
    [homepage] field.  Its name is a non-empty string when the answers
    carry one as project name, and when they carry none (or a falsy one)
    and the destination directory has a name; it is the empty string when
    the fallback of line 88 is taken at the root of the file system. *)
Theorem manifest_written_is_fresh (targetDir : path) (answers : object)
    (w : world) (text : string) (fields : object) :
  files w !! path_join TEMPLATE_DIR "package.json" = Some (File text) ->
  JSON_parse text = Some (JObj fields) ->
  open_for_write (path_join targetDir "package.json") (files w) = None ->
  exists manifest : object,
    writes_manifest targetDir answers w manifest /\
    ((exists s, obj_get "projectName" answers = Some (JStr s) /\ s <> "") \/
     (truthy (obj_get "projectName" answers) = false /\
      path_basename targetDir <> "") ->
     exists s, obj_get "name" manifest = Some (JStr s) /\ s <> "") /\
    (truthy (obj_get "projectName" answers) = false ->
     path_basename targetDir = "" ->
     obj_get "name" manifest = Some (JStr "")) /\
    obj_get "version" manifest = Some (JStr "0.1.0") /\
    obj_get "bin" manifest = None /\
    obj_get "author" manifest = None /\
    obj_get "repository" manifest = None /\
    obj_get "bugs" manifest = None /\
    obj_get "homepage" manifest = None.
Proof.
  intros Htext Hparse Hopen.
  exists (rewriteManifest targetDir answers fields).
  split; [now apply (updatePackageJson_writes _ _ _ text)|].
  destruct (rewriteManifest_name_cases targetDir answers fields)
    as (_ & _ & Hfalsy & Hfilled).
  split; [exact Hfilled|].
  split; [intros Hf Hroot; rewrite (Hfalsy Hf), Hroot; reflexivity|].
  split; [apply rewriteManifest_version|].
  repeat split; apply rewriteManifest_dropped; repeat constructor.
Qed.

(** C6, as the script has it.  The name [updatePackageJson] writes is
    [answers.projectName] when that is truthy, a non-empty string in
    particular, and the basename of the destination directory when it is
    missing or falsy.  The name is then a non-empty string provided the
    project name is one, or else is missing or falsy while the basename is
    non-empty: the destination is not the root of the file system. *)
Theorem manifest_name_rule (targetDir : path) (answers : object)
    (w : world) (text : string) (fields : object) :
  files w !! path_join TEMPLATE_DIR "package.json" = Some (File text) ->
  JSON_parse text = Some (JObj fields) ->
  open_for_write (path_join targetDir "package.json") (files w) = None ->
  exists manifest : object,
    writes_manifest targetDir answers w manifest /\
    let name := obj_get "name" manifest in
    let projectName := obj_get "projectName" answers in
    (truthy projectName = true -> name = projectName) /\
    (forall s, projectName = Some (JStr s) -> s <> "" ->
               name = Some (JStr s)) /\
    (truthy projectName = false ->
     name = Some (JStr (path_basename targetDir))) /\
    ((exists s, projectName = Some (JStr s) /\ s <> "") \/
     (truthy projectName = false /\ path_basename targetDir <> "") ->
     exists s, name = Some (JStr s) /\ s <> "").
Proof.
  intros Htext Hparse Hopen.
  exists (rewriteManifest targetDir answers fields).
  split; [now apply (updatePackageJson_writes _ _ _ text)|].
  apply rewriteManifest_name_cases.
Qed.

(** C9.  For a template manifest that is an object and a destination that
    can be written: when the template's [scripts.build] is a command (a
    non-empty string: the template's chained compile-and-patch command is
    one), the manifest [updatePackageJson] writes has the plain [tsc] in
    its place; when the template has no [scripts.build], the written
    manifest has none. *)
Theorem build_script_rule (targetDir : path) (answers : object)
    (w : world) (text : string) (fields : object) :
  files w !! path_join TEMPLATE_DIR "package.json" = Some (File text) ->
  JSON_parse text = Some (JObj fields) ->
  open_for_write (path_join targetDir "package.json") (files w) = None ->
  exists manifest : object,
    writes_manifest targetDir answers w manifest /\
    (forall cmd, build_script fields = Some (JStr cmd) -> cmd <> "" ->
                 build_script manifest = Some (JStr "tsc")) /\
    (build_script fields = None -> build_script manifest = None).
Proof.
  intros Htext Hparse Hopen.
  exists (rewriteManifest targetDir answers fields).
  split; [now apply (updatePackageJson_writes _ _ _ text)|].
  apply rewriteManifest_build.
Qed.

(** Every run of [updatePackageJson] ends in one of two ways: an error
    line on the console and the file system as it was, or the manifest
    written whole and the success line. *)
Lemma updatePackageJson_cases (targetDir : path) (answers : object) (w : world) :
  (exists e, updatePackageJson targetDir answers w =
             Ret tt (with_line w (ConsoleError "Error updating package.json: " e)))
  \/ (exists v, updatePackageJson targetDir answers w =
                Ret tt (with_line
                          (with_files w
                             (<[path_join targetDir "package.json" :=
                                  File (JSON_stringify v)]> (files w)))
                          (ConsoleLog "Updated package.json successfully."))).
Proof.
  unfold updatePackageJson, try_catch, bind, readFileSync.
  destruct (files w !! path_join TEMPLATE_DIR "package.json") as [[|text]|];
    [left; eexists; reflexivity | | left; eexists; reflexivity].
  destruct (JSON_parse text) as [v|]; [|left; eexists; reflexivity].
  destruct v; cbn [modifyPackageJson ret throw];
    try (left; eexists; reflexivity);
    unfold writeFileSync;
    (destruct (open_for_write (path_join targetDir "package.json") (files w));
     [left | right]; eexists; reflexivity).
Qed.


(** ** Exclusion by raw prefix *)

(** C1, on the script.  The exclusion test is [startsWith] on the relative
    path, so an entry also excludes the siblings whose name it begins:
    [src/foo] excludes [src/foobar], and the [.git] of the shipped
    [EXCLUDE_FROM_COPY] excludes the [.gitignore] that [FILES_TO_COPY]
    asks for.  Each call returns with the world unchanged, whether or not
    the file is there. *)
Theorem raw_prefix_excludes_siblings (fuel : nat) (destination : path)
    (w : world) :
  excluded [join_sep ["src"; "foo"]] (TEMPLATE_DIR ++ ["src"; "foobar"]) = true /\
  copyRecursiveSync (S fuel) (TEMPLATE_DIR ++ ["src"; "foobar"]) destination
    [join_sep ["src"; "foo"]] w = Ret tt w /\
  ".gitignore" ∈ FILES_TO_COPY /\
  excluded EXCLUDE_FROM_COPY (path_join TEMPLATE_DIR ".gitignore") = true /\
  copyRecursiveSync (S fuel) (path_join TEMPLATE_DIR ".gitignore") destination
    EXCLUDE_FROM_COPY w = Ret tt w.
Proof.
  assert (H1 : excluded [join_sep ["src"; "foo"]]
                 (TEMPLATE_DIR ++ ["src"; "foobar"]) = true).
  { unfold excluded. now rewrite path_relative_below. }
  assert (H2 : excluded EXCLUDE_FROM_COPY (path_join TEMPLATE_DIR ".gitignore")
               = true).
  { unfold excluded, path_join. now rewrite path_relative_below. }
  repeat split; try assumption.
  - now apply copy_skips_excluded.
  - unfold FILES_TO_COPY. set_solver.
  - now apply copy_skips_excluded.
Qed.

(** * Further properties of the copy *)

(** ** Excluded subtrees, however deep *)

Lemma writes_within_refl (exclude : list string) (src dst : path)
    (fs : gmap path node) :
  writes_within exclude src dst fs fs.
Proof. intros p Hp. now destruct Hp. Qed.

Lemma writes_within_trans (exclude : list string) (src dst : path)
    (fs0 fs1 fs2 : gmap path node) :
  writes_within exclude src dst fs0 fs1 ->
  writes_within exclude src dst fs1 fs2 ->
  writes_within exclude src dst fs0 fs2.
Proof.
  intros H01 H12 p Hp.
  destruct (decide (fs1 !! p = fs0 !! p)) as [E | NE]; [|now apply H01].
  apply H12. congruence.
Qed.

Lemma writes_within_child (exclude : list string) (src dst : path)
    (name : string) (fs fs' : gmap path node) :
  excluded exclude src = false ->
  writes_within exclude (path_join src name) (path_join dst name) fs fs' ->
  writes_within exclude src dst fs fs'.
Proof.
  unfold path_join. intros Hex H p Hp.
  destruct (H p Hp) as [[[k Hk] Hne] | (rel & -> & Hrel)].
  - destruct (decide (k = [])) as [-> | Hk'].
    { rewrite app_nil_r in Hk. congruence. }
    destruct (exists_last Hk') as (k' & x & ->).
    rewrite app_assoc in Hk. apply app_inj_tail in Hk as [-> _].
    destruct (decide (k' = [])) as [-> | Hk''].
    + right. exists []. split; [now rewrite !app_nil_r|].
      intros pre [j Hj]. symmetry in Hj. apply app_eq_nil in Hj as [-> _].
      now rewrite app_nil_r.
    + left. split; [now exists k'|].
      intros Heq. apply (f_equal length) in Heq. rewrite length_app in Heq.
      destruct k'; [done | simpl in Heq; lia].
  - right. exists (name :: rel). split; [now rewrite <- app_assoc|].
    intros pre [j Hj]. destruct pre as [|y pre].
    + now rewrite app_nil_r.
    + simpl in Hj. injection Hj as <- ->.
      specialize (Hrel pre). rewrite <- app_assoc in Hrel. apply Hrel.
      now exists j.
Qed.

Lemma adds_writes_within (exclude : list string) (src dst d : path)
    (fs fs' : gmap path node) :
  excluded exclude src = false ->
  d `prefix_of` dst ->
  (forall p, fs' !! p = fs !! p
             \/ (fs !! p = None /\ fs' !! p = Some Dir /\ p `prefix_of` d)) ->
  writes_within exclude src dst fs fs'.
Proof.
  intros Hex Hd Hadd p Hp.
  destruct (Hadd p) as [E | (_ & _ & Hpre)]; [contradiction|].
  destruct (decide (p = dst)) as [-> | Hne].
  - right. exists []. split; [now rewrite app_nil_r|].
    intros pre [j Hj]. symmetry in Hj. apply app_eq_nil in Hj as [-> _].
    now rewrite app_nil_r.
  - left. split; [by transitivity d | exact Hne].
Qed.

(** Whatever the outcome, a copy writes only within its reach. *)
Lemma copy_writes_within (exclude : list string) (fuel : nat) :
  forall (src dst : path) (w : world),
    writes_within exclude src dst (files w)
      (files (final_world (copyRecursiveSync fuel src dst exclude w))).
Proof.
  induction fuel as [|fuel IH]; intros src dst w.
  { apply writes_within_refl. }
  rewrite copy_step.
  destruct (files w !! src) as [n|] eqn:Hsrc; [|apply writes_within_refl].
  destruct (excluded exclude src) eqn:Hex; [apply writes_within_refl|].
  destruct n as [|c].
  - rewrite final_world_bind.
    destruct (ensure_dir_cases dst w) as (fs1 & [Hr | [e Hr]] & _ & Hadd);
      rewrite Hr; [|now apply (adds_writes_within exclude src dst dst)].
    assert (H01 : writes_within exclude src dst (files w) fs1)
      by now apply (adds_writes_within exclude src dst dst).
    rewrite final_world_bind. unfold readdirSync. cbn [files with_files].
    destruct (fs1 !! src) as [[|c]|]; [| exact H01 | exact H01].
    apply (writes_within_trans exclude src dst _ fs1); [exact H01|].
    generalize (readdir_order fs1 src). intros children.
    change fs1 with (files (with_files w fs1)) at 1.
    generalize (with_files w fs1). clear H01 Hadd Hr Hsrc.
    induction children as [|name children IHc]; intros w1.
    { apply writes_within_refl. }
    cbn [forEach]. rewrite final_world_bind.
    pose proof (IH (path_join src name) (path_join dst name) w1) as Hchild.
    apply (writes_within_child exclude src dst name _ _ Hex) in Hchild.
    destruct (copyRecursiveSync fuel (path_join src name)
                (path_join dst name) exclude w1) as [[] w2 | e w2 | w2];
      cbn [final_world] in Hchild; [| exact Hchild | exact Hchild].
    apply (writes_within_trans exclude src dst _ (files w2));
      [exact Hchild | apply IHc].
  - rewrite final_world_bind.
    destruct (ensure_dir_cases (path_dirname dst) w)
      as (fs1 & [Hr | [e Hr]] & _ & Hadd); rewrite Hr;
      [| now apply (adds_writes_within exclude src dst (path_dirname dst));
         [| apply path_dirname_prefix |] ].
    assert (H01 : writes_within exclude src dst (files w) fs1)
      by (apply (adds_writes_within exclude src dst (path_dirname dst));
          [exact Hex | apply path_dirname_prefix | exact Hadd]).
    unfold copyFileSync, bind, readFileSync. cbn [files with_files].
    destruct (fs1 !! src) as [[|c']|]; [exact H01 | | exact H01].
    unfold writeFileSync. cbn [files with_files].
    destruct (open_for_write dst fs1) as [code|]; [exact H01|].
    cbn [final_world files with_files]. intros p Hp.
    destruct (decide (p = dst)) as [-> | Hne].
    + right. exists []. split; [now rewrite app_nil_r|].
      intros pre [j Hj]. symmetry in Hj. apply app_eq_nil in Hj as [-> _].
      now rewrite app_nil_r.
    + rewrite lookup_insert_ne in Hp by done. now apply H01.
Qed.

(** X1.  Nothing at or below an excluded source reaches the destination,
    however deep in the tree the exclusion strikes and wherever source and
    destination lie: when the exclusion test holds of [src/pre], every
    [dst/pre/...] is after the copy what it was before, whatever the
    outcome of the copy. *)
Theorem copy_never_writes_below_excluded (exclude : list string) (fuel : nat)
    (src dst pre rest : path) (w : world) :
  excluded exclude (src ++ pre) = true ->
  files (final_world (copyRecursiveSync fuel src dst exclude w))
    !! (dst ++ pre ++ rest) = files w !! (dst ++ pre ++ rest).
Proof.
  intros Hex.
  destruct (decide (files (final_world (copyRecursiveSync fuel src dst exclude w))
                      !! (dst ++ pre ++ rest) = files w !! (dst ++ pre ++ rest)))
    as [E | NE]; [exact E|].
  destruct (copy_writes_within exclude fuel src dst w _ NE)
    as [[[k Hk] Hne] | (rel & Hrel & Hall)].
  - rewrite <- app_assoc in Hk. rewrite <- (app_nil_r dst) in Hk at 1.
    apply app_inv_head in Hk. symmetry in Hk.
    apply app_eq_nil in Hk as [Hk _]. rewrite Hk, app_nil_r in Hne. done.
  - apply app_inv_head in Hrel as <-.
    rewrite (Hall pre) in Hex; [discriminate | now apply prefix_app_r].
Qed.

(** ** The source is read, never written *)

(** X2.  A copy to a destination tree that does not overlap the source
    tree leaves every path of the source tree as it was, whatever the
    outcome of the copy. *)
Theorem copy_leaves_source_alone (exclude : list string) (fuel : nat)
    (src dst rel : path) (w : world) :
  disjoint_trees src dst ->
  files (final_world (copyRecursiveSync fuel src dst exclude w))
    !! (src ++ rel) = files w !! (src ++ rel).
Proof.
  intros Hdis. apply (copy_effect_source src dst); [exact Hdis|].
  now apply copy_effect_holds.
Qed.

(** ** What a copy that returned has copied *)

(** X3.  After a copy that returned, to a destination that does not overlap
    the source and with a listing that misses no entry, every file of the
    source the copy gets to ([reached]: nothing excluded on the way, only
    directories above it) is at the same place below the destination with
    the same bytes, every such directory has an entry there, and the
    source still holds what it held. *)
Theorem copy_round_trip (exclude : list string) (fuel : nat)
    (src dst rel : path) (w w' : world) :
  lists_all_entries ->
  disjoint_trees src dst ->
  copyRecursiveSync fuel src dst exclude w = Ret tt w' ->
  reached exclude (files w) src rel ->
  (forall c, files w !! (src ++ rel) = Some (File c) ->
             files w' !! (dst ++ rel) = Some (File c)) /\
  (files w !! (src ++ rel) = Some Dir -> is_Some (files w' !! (dst ++ rel))) /\
  files w' !! (src ++ rel) = files w !! (src ++ rel).
Proof.
  intros Hlist Hdis Hrun Hreach.
  pose proof (copy_effect_holds exclude fuel src dst w Hdis) as Heff.
  rewrite Hrun in Heff. cbn [final_world] in Heff.
  assert (Hsame : forall r, files w' !! (src ++ r) = files w !! (src ++ r))
    by (intros r; now apply (copy_effect_source src dst)).
  assert (Hreach' : reached exclude (files w') src rel).
  { intros pre Hpre. destruct (Hreach pre Hpre) as [He Hd].
    split; [exact He|]. intros Hne. rewrite Hsame. now apply Hd. }
  pose proof (copy_establishes_holds_copy exclude fuel Hlist src dst w w'
                Hdis Hrun rel Hreach') as Hm.
  unfold mirrors in Hm. rewrite Hsame in Hm.
  repeat split.
  - intros c Hc. rewrite Hc in Hm. apply Hm.
  - intros Hd. now rewrite Hd in Hm.
  - apply Hsame.
Qed.

(** ** Termination *)

Lemma copy_has_fuel (exclude : list string) (fuel : nat) :
  forall (src dst : path) (w : world),
    disjoint_trees src dst ->
    1 <= fuel ->
    (forall rel n, files w !! (src ++ rel) = Some n -> length rel + 2 <= fuel) ->
    not_exhausted (copyRecursiveSync fuel src dst exclude w).
Proof.
  induction fuel as [|fuel IH]; intros src dst w Hdis Hone Hdeep; [lia|].
  rewrite copy_step.
  destruct (files w !! src) as [n|] eqn:Hsrc; [|exact I].
  destruct (excluded exclude src); [exact I|].
  assert (Htwo : 1 <= fuel).
  { specialize (Hdeep [] n). rewrite app_nil_r in Hdeep.
    specialize (Hdeep Hsrc). simpl in Hdeep. lia. }
  destruct n as [|c].
  - unfold bind at 1.
    destruct (ensure_dir_cases dst w) as (fs1 & [Hr | [e Hr]] & _ & Hadd);
      rewrite Hr; [|exact I].
    assert (H01 : copy_effect src dst (files w) fs1)
      by now apply (adds_is_effect src dst dst).
    unfold bind at 1. unfold readdirSync. cbn [files with_files].
    destruct (fs1 !! src) as [[|c]|]; [| exact I | exact I].
    generalize (readdir_order fs1 src). intros children.
    assert (Hdeep1 : forall rel n,
               files (with_files w fs1) !! (src ++ rel) = Some n ->
               length rel + 2 <= S fuel).
    { intros rel n. cbn [files with_files].
      rewrite (copy_effect_source src dst _ _ rel Hdis H01). apply Hdeep. }
    revert Hdeep1. generalize (with_files w fs1).
    clear H01 Hadd Hr Hsrc Hdeep.
    induction children as [|name children IHc]; intros w1 Hdeep1; [exact I|].
    cbn [forEach]. unfold bind at 1.
    pose proof (IH (path_join src name) (path_join dst name) w1
                  (disjoint_trees_child src dst name Hdis) Htwo) as Hchild.
    pose proof (copy_effect_holds exclude fuel (path_join src name)
                  (path_join dst name) w1
                  (disjoint_trees_child src dst name Hdis)) as Heff.
    apply copy_effect_child in Heff.
    destruct (copyRecursiveSync fuel (path_join src name)
                (path_join dst name) exclude w1) as [[] w2 | e w2 | w2];
      cbn [final_world] in Heff.
    + apply IHc. intros rel n.
      rewrite (copy_effect_source src dst _ _ rel Hdis Heff). apply Hdeep1.
    + exact I.
    + apply Hchild. intros rel n Hn. unfold path_join in Hn.
      rewrite <- app_assoc in Hn. apply Hdeep1 in Hn. simpl in Hn. lia.
  - unfold bind at 1.
    destruct (ensure_dir_cases (path_dirname dst) w)
      as (fs1 & [Hr | [e Hr]] & _ & _); rewrite Hr; [|exact I].
    unfold copyFileSync, bind, readFileSync, writeFileSync.
    cbn [files with_files].
    destruct (fs1 !! src) as [[|c']|]; try exact I.
    destruct (open_for_write dst (files (with_files w fs1))); exact I.
Qed.

(** X4.  A copy to a destination that does not overlap the source comes to
    an end: with fuel above the depth of the file system it returns or
    throws, it does not run out of fuel, whatever [readdirSync] lists. *)
Theorem copy_terminates (exclude : list string) (fuel : nat)
    (src dst : path) (w : world) :
  disjoint_trees src dst ->
  max_depth (files w) + 2 <= fuel ->
  exists w', copyRecursiveSync fuel src dst exclude w = Ret tt w' \/
             exists e, copyRecursiveSync fuel src dst exclude w = Throw e w'.
Proof.
  intros Hdis Hfuel.
  assert (H : not_exhausted (copyRecursiveSync fuel src dst exclude w)).
  { apply copy_has_fuel; [exact Hdis | lia |].
    intros rel n Hn. apply lookup_max_depth in Hn.
    rewrite length_app in Hn. lia. }
  destruct (copyRecursiveSync fuel src dst exclude w) as [[] w' | e w' | w'];
    [exists w'; now left | exists w'; right; now exists e | destruct H].
Qed.

(** ** A destination inside its own source *)

(** X5.  Copying a tree into a directory of its own top level never
    returns: for [dst = src/x], with a listing that misses no entry and no
    exclusion on the way down [src/x/x/...], no amount of fuel makes the
    call return normally.  Each level makes the directory the next level
    then finds and copies. *)
Theorem copy_into_itself_never_returns (exclude : list string) (x : string)
    (fuel : nat) :
  lists_all_entries ->
  forall (src : path) (w : world),
    is_Some (files w !! src) ->
    (forall k, excluded exclude (src ++ replicate k x) = false) ->
    not_returned (copyRecursiveSync fuel src (path_join src x) exclude w).
Proof.
  intros Hlist. induction fuel as [|fuel IH]; intros src w [n Hsrc] Hex;
    [exact I|].
  rewrite copy_step, Hsrc.
  pose proof (Hex 0) as Hex0. simpl in Hex0. rewrite app_nil_r in Hex0.
  rewrite Hex0. destruct n as [|c].
  - unfold bind at 1.
    destruct (ensure_dir (path_join src x) w) as [[] w1 | e w1 | w1] eqn:Hens;
      [| exact I | exact I].
    apply ensure_dir_ret in Hens as [Hx Hadd].
    unfold bind at 1. unfold readdirSync.
    assert (Hsrc1 : files w1 !! src = Some Dir).
    { destruct (Hadd src) as [E | (N & _)]; congruence. }
    rewrite Hsrc1.
    pose proof (Hlist (files w1) src x Hx) as Hin.
    revert Hin Hx. generalize (readdir_order (files w1) src).
    generalize w1. clear Hadd Hsrc1 Hsrc w1.
    intros w1 children. revert w1.
    induction children as [|y children IHc]; intros w1 Hin Hx.
    { now apply elem_of_nil in Hin. }
    cbn [forEach]. unfold bind at 1.
    destruct (copyRecursiveSync fuel (path_join src y)
                (path_join (path_join src x) y) exclude w1)
      as [[] w2 | e w2 | w2] eqn:Hy; [| exact I | exact I].
    destruct (decide (y = x)) as [-> | Hne].
    + pose proof (IH (path_join src x) w1 Hx) as Hself.
      rewrite Hy in Hself. exfalso. apply Hself. intros k. unfold path_join.
      rewrite <- app_assoc. exact (Hex (S k)).
    + apply IHc.
      * apply elem_of_cons in Hin as [-> | Hin]; [done | exact Hin].
      * destruct Hx as [nx Hnx].
        pose proof (copy_touch_holds exclude fuel (path_join src y)
                      (path_join (path_join src x) y) w1 (path_join src x))
          as Htouch.
        rewrite Hy in Htouch. cbn [final_world] in Htouch.
        destruct Htouch as [E | [(N & _) | (_ & _ & c & F)]];
          [rewrite E; eauto | congruence | rewrite F; eauto].
  - unfold bind at 1.
    destruct (ensure_dir_cases (path_dirname (path_join src x)) w)
      as (_ & _ & Hr & _).
    unfold path_join, path_dirname in *. rewrite removelast_last in *.
    rewrite Hr by eauto.
    unfold copyFileSync, bind, readFileSync, writeFileSync, open_for_write.
    unfold path_dirname. rewrite removelast_last. rewrite Hsrc. cbn beta iota.
    rewrite Hsrc. exact I.
Qed.

(** ** The loop of [run] *)

(** X6.  When the loop over the entries returns, it has printed one
    [Copying ...] line for every entry, in order, and nothing else: the
    copies themselves print nothing. *)
Theorem copyTemplateFiles_prints_one_line_each (fuel : nat)
    (entries : list string) (targetDir : path) (exclude : list string) :
  forall w w' : world,
    copyTemplateFiles fuel entries targetDir exclude w = Ret tt w' ->
    console w' = console w ++ map copying_line entries.
Proof.
  unfold copyTemplateFiles.
  induction entries as [|entry entries IH]; intros w w' Hrun.
  - injection Hrun as <-. now rewrite app_nil_r.
  - cbn [forEach] in Hrun. unfold bind at 1 in Hrun.
    unfold bind at 1 in Hrun. unfold console_log at 1 in Hrun.
    pose proof (copy_console exclude fuel (path_join TEMPLATE_DIR entry)
                  (path_join targetDir entry)
                  (with_line w (ConsoleLog ("Copying " +:+ entry +:+ "..."))))
      as Hquiet.
    destruct (copyRecursiveSync fuel (path_join TEMPLATE_DIR entry)
                (path_join targetDir entry) exclude
                (with_line w (ConsoleLog ("Copying " +:+ entry +:+ "..."))))
      as [[] w1 | e w1 | w1]; try discriminate.
    cbn [final_world console with_line] in Hquiet.
    rewrite (IH w1 w' Hrun), Hquiet. cbn [map].
    now rewrite <- app_assoc.
Qed.

(** * Further properties of the manifest *)

Lemma obj_get_key (k : string) (v : json) (o : object) :
  obj_get k o = Some v -> k ∈ keys o.
Proof.
  induction o as [|[k' v'] o IH]; simpl; [discriminate|].
  destruct (String.eqb_spec k' k) as [-> | Hne]; intros H.
  - apply elem_of_cons. now left.
  - apply elem_of_cons. right. now apply IH.
Qed.

Lemma obj_get_no_key (k : string) (o : object) :
  obj_get k o = None -> k ∉ keys o.
Proof.
  induction o as [|[k' v'] o IH]; simpl; intros H Hin.
  - now apply elem_of_nil in Hin.
  - destruct (String.eqb_spec k' k) as [-> | Hne]; [discriminate|].
    apply elem_of_cons in Hin as [-> | Hin]; [done | now apply IH].
Qed.

Lemma add_key_in (k : string) (l : list string) : k ∈ l -> add_key k l = l.
Proof. intros H. unfold add_key. now rewrite bool_decide_eq_true_2. Qed.

Lemma add_key_out (k : string) (l : list string) :
  k ∉ l -> add_key k l = l ++ [k].
Proof. intros H. unfold add_key. now rewrite bool_decide_eq_false_2. Qed.

Lemma keys_obj_set (k : string) (v : json) (o : object) :
  keys (obj_set k v o) = add_key k (keys o).
Proof.
  induction o as [|[k' v'] o IH].
  - rewrite add_key_out by apply not_elem_of_nil. reflexivity.
  - cbn [obj_set]. destruct (String.eqb_spec k' k) as [-> | Hne].
    + rewrite add_key_in; [reflexivity|]. apply elem_of_cons. now left.
    + change (keys ((k', v') :: obj_set k v o)) with (k' :: keys (obj_set k v o)).
      change (keys ((k', v') :: o)) with (k' :: keys o). rewrite IH.
      destruct (decide (k ∈ keys o)) as [Hin | Hout].
      * rewrite !add_key_in; [reflexivity | | exact Hin].
        apply elem_of_cons. now right.
      * rewrite !add_key_out; [reflexivity | | exact Hout].
        intros [-> | Hin]%elem_of_cons; [now apply Hne | now apply Hout].
Qed.

Lemma keys_obj_delete (k : string) (o : object) :
  keys (obj_delete k o) = filter (fun k' => k' <> k) (keys o).
Proof.
  induction o as [|[k' v'] o IH]; simpl; [reflexivity|].
  fold (keys o). rewrite filter_cons.
  destruct (String.eqb_spec k' k) as [-> | Hne].
  - rewrite decide_False by (intros H; now apply H). exact IH.
  - rewrite decide_True by done. simpl. fold (keys (obj_delete k o)).
    now rewrite IH.
Qed.

Lemma filter_template_fields (l : list string) :
  filter (fun k => k <> "homepage")
    (filter (fun k => k <> "bugs")
       (filter (fun k => k <> "repository")
          (filter (fun k => k <> "author")
             (filter (fun k => k <> "bin") l)))) =
  filter (fun k => k ∉ TEMPLATE_FIELDS) l.
Proof.
  unfold TEMPLATE_FIELDS. induction l as [|k l IH]; [reflexivity|].
  rewrite (filter_cons (fun k => k ∉ _)), (filter_cons (fun k => k <> "bin")).
  destruct (decide (k = "bin")) as [-> | H1].
  { rewrite decide_False by (intros H; now apply H).
    rewrite decide_False; [exact IH|]. intros H. apply H. repeat constructor. }
  rewrite decide_True by done. rewrite (filter_cons (fun k => k <> "author")).
  destruct (decide (k = "author")) as [-> | H2].
  { rewrite decide_False by (intros H; now apply H).
    rewrite decide_False; [exact IH|]. intros H. apply H. repeat constructor. }
  rewrite decide_True by done. rewrite (filter_cons (fun k => k <> "repository")).
  destruct (decide (k = "repository")) as [-> | H3].
  { rewrite decide_False by (intros H; now apply H).
    rewrite decide_False; [exact IH|]. intros H. apply H. repeat constructor. }
  rewrite decide_True by done. rewrite (filter_cons (fun k => k <> "bugs")).
  destruct (decide (k = "bugs")) as [-> | H4].
  { rewrite decide_False by (intros H; now apply H).
    rewrite decide_False; [exact IH|]. intros H. apply H. repeat constructor. }
  rewrite decide_True by done. rewrite (filter_cons (fun k => k <> "homepage")).
  destruct (decide (k = "homepage")) as [-> | H5].
  { rewrite decide_False by (intros H; now apply H).
    rewrite decide_False; [exact IH|]. intros H. apply H. repeat constructor. }
  rewrite decide_True by done. rewrite decide_True; [now rewrite IH|].
  intros H. repeat (apply elem_of_cons in H as [-> | H]; [done|]).
  now apply elem_of_nil in H.
Qed.

Lemma keys_fix_build (packageJson : object) :
  keys (fix_build packageJson) = keys packageJson.
Proof.
  unfold fix_build.
  destruct (obj_get "scripts" packageJson) as [[| | | | |s]|] eqn:Hs;
    try reflexivity.
  destruct (truthy (obj_get "build" s)); [|reflexivity].
  rewrite keys_obj_set. apply add_key_in. now apply (obj_get_key _ _ _ Hs).
Qed.

Lemma rewriteManifest_keys (targetDir : path) (answers packageJson : object) :
  keys (rewriteManifest targetDir answers packageJson) =
  filter (fun k => k ∉ TEMPLATE_FIELDS)
    (add_key "description" (add_key "version" (add_key "name"
       (keys packageJson)))).
Proof.
  rewrite rewriteManifest_steps, keys_fix_build. unfold set_identity.
  rewrite !keys_obj_delete, !keys_obj_set. apply filter_template_fields.
Qed.

(** X7.  The written manifest keeps the order of the template's fields:
    for a template manifest that is an object and a destination that can
    be written, the keys of the manifest [updatePackageJson] writes are
    the template's keys, with [name], [version] and [description] where
    the template had them (after all the others, in that order, where it
    had not), and the five fields that describe the template taken out. *)
Theorem written_manifest_keeps_key_order (targetDir : path)
    (answers : object) (w : world) (text : string) (fields : object) :
  files w !! path_join TEMPLATE_DIR "package.json" = Some (File text) ->
  JSON_parse text = Some (JObj fields) ->
  open_for_write (path_join targetDir "package.json") (files w) = None ->
  exists manifest : object,
    writes_manifest targetDir answers w manifest /\
    keys manifest =
    filter (fun k => k ∉ TEMPLATE_FIELDS)
      (add_key "description" (add_key "version" (add_key "name"
         (keys fields)))).
Proof.
  intros Htext Hparse Hopen.
  exists (rewriteManifest targetDir answers fields).
  split; [now apply (updatePackageJson_writes _ _ _ text)|].
  apply rewriteManifest_keys.
Qed.



Lemma rewriteManifest_description (targetDir : path)
    (answers packageJson : object) :
  obj_get "description" (rewriteManifest targetDir answers packageJson) =
  Some (js_or (obj_get "description" answers) (JStr "")).
Proof.
  rewrite rewriteManifest_steps, fix_build_other by discriminate.
  unfold set_identity. now obj_lookup.
Qed.

(** X10.  The description of the template never reaches the new project:
    for a template manifest that is an object and a destination that can
    be written, the description [updatePackageJson] writes is
    [answers.description] when that is truthy, a non-empty string in
    particular, and the empty string when it is missing or falsy, whatever
    the template said. *)
Theorem manifest_description_rule (targetDir : path) (answers : object)
    (w : world) (text : string) (fields : object) :
  files w !! path_join TEMPLATE_DIR "package.json" = Some (File text) ->
  JSON_parse text = Some (JObj fields) ->
  open_for_write (path_join targetDir "package.json") (files w) = None ->
  exists manifest : object,
    writes_manifest targetDir answers w manifest /\
    let description := obj_get "description" manifest in
    let answered := obj_get "description" answers in
    (truthy answered = true -> description = answered) /\
    (forall s, answered = Some (JStr s) -> s <> "" ->
               description = Some (JStr s)) /\
    (truthy answered = false -> description = Some (JStr "")).
Proof.
  intros Htext Hparse Hopen.
  exists (rewriteManifest targetDir answers fields).
  split; [now apply (updatePackageJson_writes _ _ _ text)|].
  cbn zeta. rewrite rewriteManifest_description.
  split; [apply js_or_truthy|]. split.
  - intros s Hs Hne. rewrite js_or_truthy; [exact Hs|].
    rewrite Hs. now apply truthy_string.
  - intros Hf. now rewrite js_or_falsy.
Qed.

Lemma obj_set_same (k : string) (v : json) (o : object) :
  obj_get k o = Some v -> obj_set k v o = o.
Proof.
  induction o as [|[k' v'] o IH]; simpl; [discriminate|].
  destruct (String.eqb_spec k' k) as [-> | Hne].
  - now intros [= ->].
  - intros H. now rewrite IH.
Qed.

Lemma obj_delete_absent (k : string) (o : object) :
  obj_get k o = None -> obj_delete k o = o.
Proof.
  induction o as [|[k' v'] o IH]; simpl; [reflexivity|].
  destruct (String.eqb_spec k' k) as [-> | Hne]; [discriminate|].
  intros H. now rewrite IH.
Qed.

Lemma fix_build_twice (packageJson : object) :
  fix_build (fix_build packageJson) = fix_build packageJson.
Proof.
  destruct (obj_get "scripts" packageJson) as [[| | | | |s]|] eqn:Hs;
    try (assert (E : fix_build packageJson = packageJson)
           by (unfold fix_build; now rewrite Hs);
         now rewrite !E).
  destruct (truthy (obj_get "build" s)) eqn:Hb.
  - assert (E : fix_build packageJson =
                obj_set "scripts" (JObj (obj_set "build" (JStr "tsc") s))
                  packageJson)
      by (unfold fix_build; now rewrite Hs, Hb).
    rewrite E. unfold fix_build. rewrite !obj_get_set_eq.
    cbn [truthy String.eqb negb].
    rewrite (obj_set_same "build" (JStr "tsc")) by apply obj_get_set_eq.
    apply obj_set_same, obj_get_set_eq.
  - assert (E : fix_build packageJson = packageJson)
      by (unfold fix_build; now rewrite Hs, Hb).
    now rewrite !E.
Qed.

(** X11.  The rewrite is idempotent: a manifest that came out of it goes
    through it unchanged, with the same answers and destination. *)
Theorem rewriteManifest_idempotent (targetDir : path)
    (answers packageJson : object) :
  rewriteManifest targetDir answers
    (rewriteManifest targetDir answers packageJson) =
  rewriteManifest targetDir answers packageJson.
Proof.
  set (out := rewriteManifest targetDir answers packageJson).
  rewrite (rewriteManifest_steps targetDir answers out).
  assert (Hid : set_identity targetDir answers out = out).
  { unfold set_identity.
    rewrite (obj_set_same "name") by apply rewriteManifest_name.
    rewrite (obj_set_same "version") by apply rewriteManifest_version.
    rewrite (obj_set_same "description") by apply rewriteManifest_description.
    rewrite (obj_delete_absent "bin")
      by (apply rewriteManifest_dropped; repeat constructor).
    rewrite (obj_delete_absent "author")
      by (apply rewriteManifest_dropped; repeat constructor).
    rewrite (obj_delete_absent "repository")
      by (apply rewriteManifest_dropped; repeat constructor).
    rewrite (obj_delete_absent "bugs")
      by (apply rewriteManifest_dropped; repeat constructor).
    apply obj_delete_absent, rewriteManifest_dropped. repeat constructor. }
  rewrite Hid. unfold out. rewrite rewriteManifest_steps.
  apply fix_build_twice.
Qed.

(** X12.  [updatePackageJson] prints exactly one line and touches no path
    but [targetDir/package.json]: every other path of the file system, the
    template's own manifest included when the destination is not the
    template, is after the call what it was before. *)
Theorem updatePackageJson_touches_only_the_manifest (targetDir : path)
    (answers : object) (w : world) (p : path) :
  p <> path_join targetDir "package.json" ->
  files (final_world (updatePackageJson targetDir answers w)) !! p =
    files w !! p /\
  exists line,
    console (final_world (updatePackageJson targetDir answers w)) =
    console w ++ [line].
Proof.
  intros Hp.
  destruct (updatePackageJson_cases targetDir answers w) as [[e ->] | [v ->]];
    cbn [final_world files console with_line with_files].
  - split; [reflexivity | eauto].
  - split; [now rewrite lookup_insert_ne | eauto].
Qed.

(** X13.  A template manifest that is valid JSON but no object: for
    [null], a boolean, a number or a string the rewrite is a TypeError,
    which is reported on the console, and nothing is written; an array is
    written back as it was parsed, with no name, version or description. *)
Theorem updatePackageJson_on_a_manifest_that_is_no_object (targetDir : path)
    (answers : object) (w : world) (text : string) (v : json) :
  files w !! path_join TEMPLATE_DIR "package.json" = Some (File text) ->
  JSON_parse text = Some v ->
  match v with
  | JObj _ => True
  | JArr items =>
      open_for_write (path_join targetDir "package.json") (files w) = None ->
      updatePackageJson targetDir answers w =
      Ret tt (with_line
                (with_files w
                   (<[path_join targetDir "package.json" :=
                        File (JSON_stringify (JArr items))]> (files w)))
                (ConsoleLog "Updated package.json successfully."))
  | _ =>
      updatePackageJson targetDir answers w =
      Ret tt (with_line w
                (ConsoleError "Error updating package.json: " TypeError))
  end.
Proof.
  intros Htext Hparse.
  unfold updatePackageJson, try_catch, bind, readFileSync.
  rewrite Htext, Hparse.
  destruct v; cbn [modifyPackageJson ret throw]; try reflexivity; try exact I.
  intros Hopen. unfold writeFileSync. now rewrite Hopen.
Qed.

(** * Properties of [run] *)

Lemma keeps_refl (target : path) (fs : gmap path node) : keeps target fs fs.
Proof. intros p n Hp. now left. Qed.

Lemma keeps_trans (target : path) (fs0 fs1 fs2 : gmap path node) :
  keeps target fs0 fs1 -> keeps target fs1 fs2 -> keeps target fs0 fs2.
Proof.
  intros H01 H12 p n Hp.
  destruct (H01 p n Hp) as [E | (Hpre & Hn & c & F)].
  - apply (H12 p n E).
  - destruct (H12 p (File c) F) as [E | (_ & _ & c' & F')].
    + right. eauto.
    + right. eauto.
Qed.

Lemma adds_keeps (target d : path) (fs fs' : gmap path node) :
  (forall p, fs' !! p = fs !! p
             \/ (fs !! p = None /\ fs' !! p = Some Dir /\ p `prefix_of` d)) ->
  keeps target fs fs'.
Proof.
  intros Hadd p n Hp. left.
  destruct (Hadd p) as [E | (N & _)]; congruence.
Qed.

Lemma touch_keeps (target dst : path) (fs fs' : gmap path node) :
  target `prefix_of` dst -> copy_touch dst fs fs' -> keeps target fs fs'.
Proof.
  intros Hpre Htouch p n Hp.
  destruct (Htouch p) as [E | [(N & _) | (Hin & ND & c & F)]].
  - left. congruence.
  - congruence.
  - right. split; [by transitivity dst|]. split; [congruence | eauto].
Qed.

Lemma copyTemplateFiles_keeps (fuel : nat) (entries : list string)
    (targetDir : path) (exclude : list string) :
  forall w : world,
    keeps targetDir (files w)
      (files (final_world
                (copyTemplateFiles fuel entries targetDir exclude w))).
Proof.
  unfold copyTemplateFiles.
  induction entries as [|entry entries IH]; intros w; [apply keeps_refl|].
  cbn [forEach]. rewrite final_world_bind. cbn beta zeta.
  unfold bind at 1. unfold console_log at 1.
  pose proof (copy_touch_holds exclude fuel (path_join TEMPLATE_DIR entry)
                (path_join targetDir entry)
                (with_line w (ConsoleLog ("Copying " +:+ entry +:+ "..."))))
    as Htouch.
  apply (touch_keeps targetDir) in Htouch;
    [|unfold path_join; now apply prefix_app_r].
  cbn [files with_line] in Htouch.
  destruct (copyRecursiveSync fuel (path_join TEMPLATE_DIR entry)
              (path_join targetDir entry) exclude
              (with_line w (ConsoleLog ("Copying " +:+ entry +:+ "..."))))
    as [[] w1 | e w1 | w1]; cbn [final_world] in Htouch;
    [| exact Htouch | exact Htouch].
  apply (keeps_trans targetDir _ (files w1)); [exact Htouch | apply IH].
Qed.

Lemma insert_file_keeps (target p : path) (data : string)
    (fs : gmap path node) :
  target `prefix_of` p -> fs !! p <> Some Dir ->
  keeps target fs (<[p := File data]> fs).
Proof.
  intros Hpre Hnd q n Hq. destruct (decide (q = p)) as [-> | Hne].
  - right. rewrite lookup_insert_eq. split; [exact Hpre|].
    split; [congruence | eauto].
  - left. now rewrite lookup_insert_ne.
Qed.

Lemma updatePackageJson_keeps (targetDir : path) (answers : object)
    (w : world) :
  keeps targetDir (files w)
    (files (final_world (updatePackageJson targetDir answers w))).
Proof.
  unfold updatePackageJson, try_catch, bind, readFileSync.
  destruct (files w !! path_join TEMPLATE_DIR "package.json") as [[|text]|];
    [apply keeps_refl | | apply keeps_refl].
  destruct (JSON_parse text) as [v|]; [|apply keeps_refl].
  destruct v; cbn [modifyPackageJson ret throw]; try apply keeps_refl;
    unfold writeFileSync;
    (destruct (open_for_write (path_join targetDir "package.json") (files w))
       as [code|] eqn:Hopen; [apply keeps_refl|];
     apply open_for_write_not_dir in Hopen as [_ Hnd];
     cbn [final_world console_log files with_line with_files];
     apply insert_file_keeps; [unfold path_join; now apply prefix_app_r | exact Hnd]).
Qed.

Lemma print_lines (lines : list string) :
  forall w : world,
    forEach lines console_log w =
    Ret tt (World (files w) (console w ++ map ConsoleLog lines)).
Proof.
  induction lines as [|l lines IH]; intros w.
  - destruct w as [fs cs]. cbn. now rewrite app_nil_r.
  - cbn [forEach]. unfold bind, console_log at 1. rewrite IH.
    cbn [files console with_line map]. now rewrite <- app_assoc.
Qed.

Lemma prepareTarget_keeps (targetDir : path) (overwrite : bool) (w : world) :
  keeps targetDir (files w)
    (files (final_world (prepareTarget targetDir overwrite w))).
Proof.
  unfold prepareTarget, bind, existsSync.
  destruct (bool_decide (is_Some (files w !! targetDir))).
  - destruct overwrite; apply keeps_refl.
  - unfold mkdirSync_recursive.
    pose proof (mkdir_walk_adds targetDir [] (files w)) as Hadd.
    destruct (mkdir_walk [] targetDir (files w)) as [[e fs'] | fs'];
      cbn [walk_fs] in Hadd; cbn [final_world files with_files ret];
      now apply (adds_keeps targetDir targetDir).
Qed.

(** X14.  [run] deletes nothing, also when the user agrees to overwrite:
    whatever its outcome, an entry that was in the file system is still
    there, a directory is still a directory, and an entry outside the
    target directory is as it was.  When the target exists and the user
    declines, [run] exits with code 0 and the file system is the one it
    found. *)
Theorem run_keeps_what_was_there (fuel : nat) (cwd : path)
    (targetArg : string) (overwrite : bool) (answers : object)
    (w : world) (p : path) (n : node) :
  files w !! p = Some n ->
  let targetDir := path_resolve cwd targetArg in
  let o := run_from_target fuel cwd targetArg overwrite answers w in
  is_Some (files (final_world o) !! p) /\
  (n = Dir -> files (final_world o) !! p = Some Dir) /\
  (~ targetDir `prefix_of` p -> files (final_world o) !! p = Some n) /\
  (is_Some (files w !! targetDir) -> overwrite = false ->
   o = Ret (Exited 0) (with_line w (ConsoleLog "Initialization cancelled."))).
Proof.
  intros Hp targetDir o.
  assert (Hkeeps : keeps targetDir (files w) (files (final_world o))).
  { subst o. unfold run_from_target. fold targetDir.
    rewrite final_world_bind.
    pose proof (prepareTarget_keeps targetDir overwrite w) as H1.
    destruct (prepareTarget targetDir overwrite w) as [cancelled w1 | e w1 | w1];
      cbn [final_world] in H1; [| exact H1 | exact H1].
    destruct cancelled; [exact H1|].
    apply (keeps_trans targetDir _ (files w1)); [exact H1|].
    rewrite final_world_bind. unfold console_log at 1.
    rewrite final_world_bind.
    pose proof (copyTemplateFiles_keeps fuel FILES_TO_COPY targetDir
                  EXCLUDE_FROM_COPY
                  (with_line w1 (ConsoleLog (nl +:+ "Creating project structure..."))))
      as H2.
    cbn [files with_line] in H2.
    destruct (copyTemplateFiles fuel FILES_TO_COPY targetDir EXCLUDE_FROM_COPY
                (with_line w1 (ConsoleLog (nl +:+ "Creating project structure..."))))
      as [[] w2 | e w2 | w2]; cbn [final_world] in H2;
      [| exact H2 | exact H2].
    apply (keeps_trans targetDir _ (files w2)); [exact H2|].
    rewrite final_world_bind.
    pose proof (updatePackageJson_keeps targetDir answers w2) as H3.
    destruct (updatePackageJson targetDir answers w2) as [[] w3 | e w3 | w3];
      cbn [final_world] in H3; [| exact H3 | exact H3].
    apply (keeps_trans targetDir _ (files w3)); [exact H3|].
    unfold bind. rewrite print_lines. apply keeps_refl. }
  assert (Hcancel : is_Some (files w !! targetDir) -> overwrite = false ->
            o = Ret (Exited 0)
                  (with_line w (ConsoleLog "Initialization cancelled."))).
  { intros Hthere ->. subst o. unfold run_from_target. fold targetDir.
    unfold bind, prepareTarget, bind, existsSync.
    now rewrite bool_decide_eq_true_2. }
  destruct (Hkeeps p n Hp) as [E | (Hin & Hn & c & F)].
  - split; [rewrite E; eauto|]. split; [intros ->; exact E|].
    split; [intros _; exact E | exact Hcancel].
  - split; [rewrite F; eauto|]. split; [intros; contradiction|].
    split; [intros; contradiction | exact Hcancel].
Qed.

(** X15.  [run] finishes and prints its success message whether or not
    the manifest could be written: once the target is prepared and the
    loop over the entries has returned, the run returns [Finished] with
    the final instructions after whatever [updatePackageJson] left, and
    when the template has no manifest that is its error line, followed by
    [Project initialized successfully!]. *)
Theorem run_succeeds_whatever_the_manifest (fuel : nat) (cwd : path)
    (targetArg : string) (overwrite : bool) (answers : object)
    (w w1 w2 : world) :
  let targetDir := path_resolve cwd targetArg in
  prepareTarget targetDir overwrite w = Ret false w1 ->
  copyTemplateFiles fuel FILES_TO_COPY targetDir EXCLUDE_FROM_COPY
    (with_line w1 (ConsoleLog (nl +:+ "Creating project structure...")))
    = Ret tt w2 ->
  let w3 := final_world (updatePackageJson targetDir answers w2) in
  run_from_target fuel cwd targetArg overwrite answers w =
    Ret Finished
      (World (files w3)
         (console w3 ++ map ConsoleLog (final_instructions targetArg))) /\
  (files w2 !! path_join TEMPLATE_DIR "package.json" = None ->
   w3 = with_line w2
          (ConsoleError "Error updating package.json: "
             (FsError ENOENT (path_join TEMPLATE_DIR "package.json")))).
Proof.
  intros targetDir Hprep Hcopy w3. subst w3. split.
  - unfold run_from_target. fold targetDir.
    unfold bind at 1. rewrite Hprep.
    unfold bind at 1. unfold console_log at 1.
    unfold bind at 1. rewrite Hcopy.
    unfold bind at 1.
    destruct (updatePackageJson_cases targetDir answers w2)
      as [[e ->] | [v ->]]; cbn [final_world];
      unfold bind; now rewrite print_lines.
  - intros Hnone. unfold updatePackageJson, try_catch, bind, readFileSync.
    now rewrite Hnone.
Qed.

(** ** The template and the new project *)

Lemma near_refl (target : path) (fs : gmap path node) : near target fs fs.
Proof. intros p Hp. now destruct Hp. Qed.

Lemma near_trans (target : path) (fs0 fs1 fs2 : gmap path node) :
  near target fs0 fs1 -> near target fs1 fs2 -> near target fs0 fs2.
Proof.
  intros H01 H12 p Hp.
  destruct (decide (fs1 !! p = fs0 !! p)) as [E | NE]; [|now apply H01].
  apply H12. congruence.
Qed.

Lemma adds_near (target : path) (fs fs' : gmap path node) :
  (forall p, fs' !! p = fs !! p
             \/ (fs !! p = None /\ fs' !! p = Some Dir /\
                 p `prefix_of` target)) ->
  near target fs fs'.
Proof.
  intros Hadd p Hp. destruct (Hadd p) as [E | (_ & _ & Hpre)];
    [contradiction | now left].
Qed.

Lemma touch_near (target : path) (name : string) (fs fs' : gmap path node) :
  copy_touch (path_join target name) fs fs' -> near target fs fs'.
Proof.
  intros Htouch. apply copy_touch_child in Htouch. intros p Hp.
  destruct (Htouch p) as [E | [(_ & _ & H) | (H & _)]];
    [contradiction | exact H | now right].
Qed.

Lemma near_outside (target base rel : path) (fs fs' : gmap path node) :
  disjoint_trees base target -> near target fs fs' ->
  fs' !! (base ++ rel) = fs !! (base ++ rel).
Proof.
  intros [Hbt Htb] Hnear.
  destruct (decide (fs' !! (base ++ rel) = fs !! (base ++ rel)))
    as [E | NE]; [exact E|].
  destruct (Hnear _ NE) as [H | H].
  - destruct Hbt. etrans; [|exact H]. now apply prefix_app_r.
  - destruct (prefix_weak_total base target (base ++ rel));
      [now apply prefix_app_r | exact H | contradiction | contradiction].
Qed.

Lemma copyTemplateFiles_near (fuel : nat) (entries : list string)
    (targetDir : path) (exclude : list string) :
  forall w : world,
    near targetDir (files w)
      (files (final_world
                (copyTemplateFiles fuel entries targetDir exclude w))).
Proof.
  unfold copyTemplateFiles.
  induction entries as [|entry entries IH]; intros w; [apply near_refl|].
  cbn [forEach]. rewrite final_world_bind. cbn beta zeta.
  unfold bind at 1. unfold console_log at 1.
  pose proof (copy_touch_holds exclude fuel (path_join TEMPLATE_DIR entry)
                (path_join targetDir entry)
                (with_line w (ConsoleLog ("Copying " +:+ entry +:+ "..."))))
    as Htouch.
  apply touch_near in Htouch. cbn [files with_line] in Htouch.
  destruct (copyRecursiveSync fuel (path_join TEMPLATE_DIR entry)
              (path_join targetDir entry) exclude
              (with_line w (ConsoleLog ("Copying " +:+ entry +:+ "..."))))
    as [[] w1 | e w1 | w1]; cbn [final_world] in Htouch;
    [| exact Htouch | exact Htouch].
  apply (near_trans targetDir _ (files w1)); [exact Htouch | apply IH].
Qed.

Lemma run_near (fuel : nat) (cwd : path) (targetArg : string)
    (overwrite : bool) (answers : object) (w : world) :
  near (path_resolve cwd targetArg) (files w)
    (files (final_world
              (run_from_target fuel cwd targetArg overwrite answers w))).
Proof.
  unfold run_from_target. set (targetDir := path_resolve cwd targetArg).
  rewrite final_world_bind.
  assert (H1 : near targetDir (files w)
                 (files (final_world (prepareTarget targetDir overwrite w)))).
  { unfold prepareTarget, bind, existsSync.
    destruct (bool_decide (is_Some (files w !! targetDir))).
    - destruct overwrite; apply near_refl.
    - unfold mkdirSync_recursive.
      pose proof (mkdir_walk_adds targetDir [] (files w)) as Hadd.
      destruct (mkdir_walk [] targetDir (files w)) as [[e fs'] | fs'];
        cbn [walk_fs] in Hadd; cbn [final_world files with_files ret];
        now apply adds_near. }
  destruct (prepareTarget targetDir overwrite w) as [cancelled w1 | e w1 | w1];
    cbn [final_world] in H1; [| exact H1 | exact H1].
  destruct cancelled; [exact H1|].
  apply (near_trans targetDir _ (files w1)); [exact H1|].
  rewrite final_world_bind. unfold console_log at 1.
  rewrite final_world_bind.
  pose proof (copyTemplateFiles_near fuel FILES_TO_COPY targetDir
                EXCLUDE_FROM_COPY
                (with_line w1 (ConsoleLog (nl +:+ "Creating project structure..."))))
    as H2.
  cbn [files with_line] in H2.
  destruct (copyTemplateFiles fuel FILES_TO_COPY targetDir EXCLUDE_FROM_COPY
              (with_line w1 (ConsoleLog (nl +:+ "Creating project structure..."))))
    as [[] w2 | e w2 | w2]; cbn [final_world] in H2; [| exact H2 | exact H2].
  apply (near_trans targetDir _ (files w2)); [exact H2|].
  rewrite final_world_bind.
  assert (H3 : near targetDir (files w2)
                 (files (final_world (updatePackageJson targetDir answers w2)))).
  { destruct (updatePackageJson_cases targetDir answers w2)
      as [[e ->] | [v ->]]; cbn [final_world files with_line with_files];
      [apply near_refl|].
    intros p Hp. right.
    destruct (decide (p = path_join targetDir "package.json")) as [-> | Hne].
    - unfold path_join. now apply prefix_app_r.
    - now rewrite lookup_insert_ne in Hp. }
  destruct (updatePackageJson targetDir answers w2) as [[] w3 | e w3 | w3];
    cbn [final_world] in H3; [| exact H3 | exact H3].
  apply (near_trans targetDir _ (files w3)); [exact H3|].
  unfold bind. rewrite print_lines. apply near_refl.
Qed.

(** X16.  [run] leaves the template as it is: when the template tree and
    the target tree do not overlap, no path at or below [TEMPLATE_DIR] is
    created, removed or changed, whatever the outcome of the run. *)
Theorem run_leaves_the_template_alone (fuel : nat) (cwd : path)
    (targetArg : string) (overwrite : bool) (answers : object)
    (w : world) (rel : path) :
  disjoint_trees TEMPLATE_DIR (path_resolve cwd targetArg) ->
  files (final_world (run_from_target fuel cwd targetArg overwrite answers w))
    !! (TEMPLATE_DIR ++ rel) = files w !! (TEMPLATE_DIR ++ rel).
Proof.
  intros Hdis. apply (near_outside (path_resolve cwd targetArg)); [exact Hdis|].
  apply run_near.
Qed.

Lemma copyTemplateFiles_effect (fuel : nat) (entries : list string)
    (targetDir : path) (exclude : list string) :
  disjoint_trees TEMPLATE_DIR targetDir ->
  forall w : world,
    copy_effect TEMPLATE_DIR targetDir (files w)
      (files (final_world
                (copyTemplateFiles fuel entries targetDir exclude w))).
Proof.
  intros Hdis. unfold copyTemplateFiles.
  induction entries as [|entry entries IH]; intros w; [apply copy_effect_refl|].
  cbn [forEach]. rewrite final_world_bind. cbn beta zeta.
  unfold bind at 1. unfold console_log at 1.
  pose proof (copy_effect_holds exclude fuel (path_join TEMPLATE_DIR entry)
                (path_join targetDir entry)
                (with_line w (ConsoleLog ("Copying " +:+ entry +:+ "...")))
                (disjoint_trees_child _ _ entry Hdis))
    as Heff.
  apply copy_effect_child in Heff. cbn [files with_line] in Heff.
  destruct (copyRecursiveSync fuel (path_join TEMPLATE_DIR entry)
              (path_join targetDir entry) exclude
              (with_line w (ConsoleLog ("Copying " +:+ entry +:+ "..."))))
    as [[] w1 | e w1 | w1]; cbn [final_world] in Heff;
    [| exact Heff | exact Heff].
  apply (copy_effect_trans _ _ _ (files w1)); [exact Hdis | exact Heff | apply IH].
Qed.

(** When the loop returns, each entry has been copied whole. *)
Lemma copyTemplateFiles_round_trip (fuel : nat) (entries : list string)
    (targetDir : path) (exclude : list string) :
  lists_all_entries ->
  disjoint_trees TEMPLATE_DIR targetDir ->
  forall w w' : world,
    copyTemplateFiles fuel entries targetDir exclude w = Ret tt w' ->
    forall (f : string) (rel : path),
      f ∈ entries ->
      reached exclude (files w) (path_join TEMPLATE_DIR f) rel ->
      mirrors (files w') (TEMPLATE_DIR ++ f :: rel) (targetDir ++ f :: rel).
Proof.
  intros Hlist Hdis.
  induction entries as [|entry entries IH]; intros w w' Hrun f rel Hin Hreach.
  { now apply elem_of_nil in Hin. }
  pose proof (copyTemplateFiles_effect fuel entries targetDir exclude Hdis)
    as Hrest.
  unfold copyTemplateFiles in Hrun, Hrest. cbn [forEach] in Hrun.
  unfold bind at 1 in Hrun. cbn beta zeta in Hrun.
  unfold bind at 1 in Hrun. unfold console_log at 1 in Hrun.
  set (w0 := with_line w (ConsoleLog ("Copying " +:+ entry +:+ "..."))) in *.
  pose proof (copy_effect_holds exclude fuel (path_join TEMPLATE_DIR entry)
                (path_join targetDir entry) w0
                (disjoint_trees_child _ _ entry Hdis)) as Hfirst.
  apply copy_effect_child in Hfirst.
  destruct (copyRecursiveSync fuel (path_join TEMPLATE_DIR entry)
              (path_join targetDir entry) exclude w0)
    as [[] w1 | e w1 | w1] eqn:Hcopy; try discriminate.
  cbn [final_world] in Hfirst. change (files w0) with (files w) in Hfirst.
  specialize (Hrest w1). fold (copyTemplateFiles fuel entries targetDir exclude)
    in Hrun, Hrest.
  rewrite Hrun in Hrest. cbn [final_world] in Hrest.
  assert (Hreach1 : reached exclude (files w1) (path_join TEMPLATE_DIR f) rel).
  { intros pre Hpre. destruct (Hreach pre Hpre) as [He Hd].
    split; [exact He|]. intros Hne. unfold path_join in *.
    rewrite <- app_assoc.
    rewrite (copy_effect_source _ _ _ _ _ Hdis Hfirst).
    rewrite app_assoc. now apply Hd. }
  apply elem_of_cons in Hin as [-> | Hin].
  - apply (mirrors_preserved _ _ (entry :: rel) (files w1));
      [exact Hdis | exact Hrest |].
    pose proof (copy_establishes_holds_copy exclude fuel Hlist _ _ w0 w1
                  (disjoint_trees_child _ _ entry Hdis) Hcopy rel Hreach1)
      as Hm.
    unfold path_join in Hm. now rewrite <- !app_assoc in Hm.
  - now apply (IH w1 w' Hrun f rel Hin).
Qed.

(** X17.  What [run] puts into the new project: when it returns
    [Finished], with a template tree and a target tree that do not overlap
    and a listing that misses no entry, every file of a listed entry that
    the copy gets to ([reached]: nothing excluded on the way, only
    directories above it) is in the target at the same relative path with
    the same bytes. *)
Theorem run_copies_the_template (fuel : nat) (cwd : path)
    (targetArg : string) (overwrite : bool) (answers : object)
    (w w' : world) (f : string) (rel : path) (c : string) :
  lists_all_entries ->
  disjoint_trees TEMPLATE_DIR (path_resolve cwd targetArg) ->
  run_from_target fuel cwd targetArg overwrite answers w = Ret Finished w' ->
  f ∈ FILES_TO_COPY ->
  reached EXCLUDE_FROM_COPY (files w) (path_join TEMPLATE_DIR f) rel ->
  files w !! (TEMPLATE_DIR ++ f :: rel) = Some (File c) ->
  files w' !! (path_resolve cwd targetArg ++ f :: rel) = Some (File c).
Proof.
  intros Hlist Hdis Hrun Hin Hreach Hfile.
  revert Hrun Hdis. unfold run_from_target.
  set (targetDir := path_resolve cwd targetArg). intros Hrun Hdis.
  unfold bind at 1 in Hrun.
  assert (H1 : near targetDir (files w)
                 (files (final_world (prepareTarget targetDir overwrite w)))).
  { unfold prepareTarget, bind, existsSync.
    destruct (bool_decide (is_Some (files w !! targetDir))).
    - destruct overwrite; apply near_refl.
    - unfold mkdirSync_recursive.
      pose proof (mkdir_walk_adds targetDir [] (files w)) as Hadd.
      destruct (mkdir_walk [] targetDir (files w)) as [[e fs'] | fs'];
        cbn [walk_fs] in Hadd; cbn [final_world files with_files ret];
        now apply adds_near. }
  destruct (prepareTarget targetDir overwrite w) as [cancelled w1 | e w1 | w1];
    try discriminate.
  cbn [final_world] in H1.
  destruct cancelled; [discriminate|].
  unfold bind at 1 in Hrun. unfold console_log at 1 in Hrun.
  unfold bind at 1 in Hrun.
  set (w1' := with_line w1 (ConsoleLog (nl +:+ "Creating project structure...")))
    in *.
  destruct (copyTemplateFiles fuel FILES_TO_COPY targetDir EXCLUDE_FROM_COPY w1')
    as [[] w2 | e w2 | w2] eqn:Hloop; try discriminate.
  assert (Hreach1 : reached EXCLUDE_FROM_COPY (files w1')
                      (path_join TEMPLATE_DIR f) rel).
  { intros pre Hpre. destruct (Hreach pre Hpre) as [He Hd].
    split; [exact He|]. intros Hne. unfold path_join in *.
    rewrite <- app_assoc. change (files w1') with (files w1).
    rewrite (near_outside targetDir TEMPLATE_DIR _ _ _ Hdis H1).
    rewrite app_assoc. now apply Hd. }
  pose proof (copyTemplateFiles_round_trip fuel FILES_TO_COPY targetDir
                EXCLUDE_FROM_COPY Hlist Hdis w1' w2 Hloop f rel Hin Hreach1)
    as Hm.
  pose proof (copyTemplateFiles_effect fuel FILES_TO_COPY targetDir
                EXCLUDE_FROM_COPY Hdis w1') as Heff.
  rewrite Hloop in Heff. cbn [final_world] in Heff.
  unfold mirrors in Hm.
  rewrite (copy_effect_source _ _ _ _ (f :: rel) Hdis Heff) in Hm.
  change (files w1') with (files w1) in Hm.
  rewrite (near_outside targetDir TEMPLATE_DIR _ _ _ Hdis H1), Hfile in Hm.
  destruct Hm as [Hcopy _].
  unfold bind at 1 in Hrun.
  assert (Hpj : files (final_world (updatePackageJson targetDir answers w2))
                  !! (targetDir ++ f :: rel) = Some (File c)).
  { destruct (updatePackageJson_cases targetDir answers w2)
      as [[e ->] | [v ->]]; cbn [final_world files with_line with_files];
      [exact Hcopy|].
    rewrite lookup_insert_ne; [exact Hcopy|].
    unfold path_join. intros Heq. apply app_inv_head in Heq.
    injection Heq as <- _. revert Hin. unfold FILES_TO_COPY.
    intros H. repeat (apply elem_of_cons in H as [H | H]; [discriminate|]).
    now apply elem_of_nil in H. }
  destruct (updatePackageJson targetDir answers w2) as [[] w3 | e w3 | w3];
    try discriminate.
  cbn [final_world] in Hpj. unfold bind in Hrun. rewrite print_lines in Hrun.
  injection Hrun as <-. exact Hpj.
Qed.

End Initialize.

(** * The listing by keys *)

Lemma readdir_keys_lists_all : lists_all_entries readdir_keys.
Proof.
  intros fs p name [n Hn]. unfold readdir_keys.
  apply list_elem_of_omap. exists (p ++ [name], n). split.
  - now apply elem_of_map_to_list.
  - unfold child_name. cbn [fst]. now rewrite strip_prefix_app.
Qed.

(** * The script on the example data *)

(** ** The copy at work *)

(** The scenario of the specification: template manifest
    [{name: tmpl, version: 9.9.9, bin: cli.js, author: X}], answers
    [{projectName: foo, description: bar}]. *)
Example scenario_manifest :
  rewriteManifest demo_target demo_answers
    [ ("name", JStr "tmpl"); ("version", JStr "9.9.9"); ("bin", JStr "cli.js");
      ("author", JStr "X") ] =
  [ ("name", JStr "foo"); ("version", JStr "0.1.0"); ("description", JStr "bar") ].
Proof. reflexivity. Qed.

(** The sources are copied, the initializer is not, and the file the
    destination had is still there. *)
Example scenario_copy :
  copyRecursiveSync demo_template readdir_keys 4
    (demo_template ++ ["src"]) (demo_target ++ ["src"])
    EXCLUDE_FROM_COPY demo_world = Ret tt demo_copied /\
  files demo_copied !! (demo_target ++ ["src"; "initialize.ts"]) = None /\
  files demo_copied !! (demo_target ++ ["docs"; "extra.txt"]) = Some (File "mine").
Proof. vm_compute. repeat split; reflexivity. Qed.

(** And copying them again changes nothing. *)
Example scenario_copy_twice :
  copyRecursiveSync demo_template readdir_keys 7
    (demo_template ++ ["src"]) (demo_target ++ ["src"])
    EXCLUDE_FROM_COPY demo_copied = Ret tt demo_copied.
Proof.
  apply (copy_twice demo_template readdir_keys EXCLUDE_FROM_COPY 4 7
           _ _ demo_world).
  - apply readdir_keys_lists_all.
  - split; intros [k Hk]; discriminate Hk.
  - apply scenario_copy.
  - vm_compute. lia.
Qed.

(** The run over [FILES_TO_COPY] leaves no [.gitignore] at the destination,
    although the template has one and the list asks for it. *)
Example scenario_gitignore :
  let o := copyTemplateFiles demo_template readdir_keys 4 FILES_TO_COPY
             demo_target EXCLUDE_FROM_COPY demo_world in
  (exists w', o = Ret tt w') /\
  files demo_world !! (demo_template ++ [".gitignore"]) = Some (File "node_modules") /\
  files (final_world o) !! (demo_target ++ [".gitignore"]) = None /\
  files (final_world o) !! (demo_target ++ ["docs"; "guide.md"]) = Some (File "guide").
Proof. vm_compute. repeat split; try reflexivity. eexists. reflexivity. Qed.

(** ** The theorems at work *)

(** An entry below the excluded [node_modules] is skipped. *)
Lemma copy_excluded_is_noop_demo :
  copyRecursiveSync demo_template readdir_keys 1
    (demo_template ++ ["node_modules"; "chalk"; "index.js"])
    (demo_target ++ ["node_modules"; "chalk"; "index.js"])
    EXCLUDE_FROM_COPY demo_world = Ret tt demo_world.
Proof.
  apply (copy_excluded_is_noop demo_template readdir_keys 0 _ _
           EXCLUDE_FROM_COPY "node_modules").
  - constructor.
  - right. exists "chalk/index.js". reflexivity.
Defined.

(** With [""] excluded not even the sources are copied. *)
Lemma copy_empty_exclusion_is_noop_demo :
  copyRecursiveSync demo_template readdir_keys 4
    (demo_template ++ ["src"]) (demo_target ++ ["src"]) [""] demo_world =
  Ret tt demo_world.
Proof.
  destruct (copy_empty_exclusion_is_noop demo_template readdir_keys [""])
    as (_ & _ & Hnoop); [constructor|].
  apply Hnoop.
Defined.

(** The entry [missing-dir] of the scenario: nothing happens, nothing is
    printed. *)
Lemma copy_missing_source_is_silent_demo :
  copyRecursiveSync demo_template readdir_keys 1
    (demo_template ++ ["missing-dir"]) (demo_target ++ ["missing-dir"])
    EXCLUDE_FROM_COPY demo_world = Ret tt demo_world.
Proof.
  apply (copy_missing_source_is_silent demo_template readdir_keys 0).
  vm_compute. reflexivity.
Defined.

(** The [extra.txt] of the scenario survives the copy of [docs]. *)
Lemma copy_keeps_other_entries_demo :
  files (final_world
           (copyRecursiveSync demo_template readdir_keys 4
              (demo_template ++ ["docs"]) (demo_target ++ ["docs"])
              EXCLUDE_FROM_COPY demo_world))
    !! (demo_target ++ ["docs"; "extra.txt"]) = Some (File "mine").
Proof.
  apply (copy_keeps_other_entries demo_template readdir_keys EXCLUDE_FROM_COPY 4
           (demo_template ++ ["docs"]) (demo_target ++ ["docs"]) demo_world
           (demo_target ++ ["docs"; "extra.txt"]) (File "mine")).
  - vm_compute. reflexivity.
  - split; intros [k Hk]; discriminate Hk.
  - intros rel c Hrel. injection Hrel as <-. vm_compute. discriminate.
Defined.

(** Copying the sources a second time. *)
Lemma copy_rerun_is_idempotent_demo :
  copyRecursiveSync demo_template readdir_keys 7
    (demo_template ++ ["src"]) (demo_target ++ ["src"])
    EXCLUDE_FROM_COPY demo_copied = Ret tt demo_copied.
Proof.
  apply (copy_rerun_is_idempotent demo_template readdir_keys).
  - apply holds_copyb_sound. vm_compute. reflexivity.
  - vm_compute. lia.
Defined.

(** With no project name in the answers the new project is named after
    its directory, [out]. *)
Lemma manifest_written_is_fresh_demo :
  exists manifest : object,
    writes_manifest demo_template demo_parse demo_stringify
      demo_target [] demo_world manifest /\
    (exists s, obj_get "name" manifest = Some (JStr s) /\ s <> "") /\
    obj_get "version" manifest = Some (JStr "0.1.0") /\
    obj_get "bin" manifest = None /\
    obj_get "author" manifest = None.
Proof.
  destruct (manifest_written_is_fresh demo_template demo_parse demo_stringify
              demo_target [] demo_world "template manifest" demo_manifest)
    as (manifest & Hrun & Hname & _ & Hversion & Hbin & Hauthor & _).
  - vm_compute. reflexivity.
  - reflexivity.
  - vm_compute. reflexivity.
  - exists manifest. split; [exact Hrun|].
    split; [|split; [exact Hversion | split; [exact Hbin | exact Hauthor]]].
    apply Hname. right. split; [reflexivity | discriminate].
Defined.

(** C2 as stated fails: with no project name in the answers and the root
    of the file system as destination, the manifest that is written has
    the empty string as name. *)
Lemma manifest_written_can_be_nameless :
  updatePackageJson demo_template demo_parse demo_stringify [] [] demo_world =
  Ret tt (with_line
            (with_files demo_world
               (<[ ["package.json"] :=
                     File (demo_stringify
                             (JObj [ ("name", JStr "");
                                     ("version", JStr "0.1.0");
                                     ("scripts",
                                      JObj [ ("start", JStr "node dist/server.js");
                                             ("build", JStr "tsc") ]);
                                     ("description", JStr "") ]))]>
                  (files demo_world)))
            (ConsoleLog "Updated package.json successfully.")).
Proof. vm_compute. reflexivity. Qed.

(** C6 as stated fails: with an empty project name and the root of the
    file system as destination, the name that is written is the empty
    string. *)
Lemma manifest_name_can_be_empty :
  updatePackageJson demo_template demo_parse demo_stringify
    [] [("projectName", JStr "")] demo_world =
  Ret tt (with_line
            (with_files demo_world
               (<[ ["package.json"] :=
                     File (demo_stringify
                             (JObj [ ("name", JStr "");
                                     ("version", JStr "0.1.0");
                                     ("scripts",
                                      JObj [ ("start", JStr "node dist/server.js");
                                             ("build", JStr "tsc") ]);
                                     ("description", JStr "") ]))]>
                  (files demo_world)))
            (ConsoleLog "Updated package.json successfully.")).
Proof. vm_compute. reflexivity. Qed.

(** The name of [foo], and the name taken from the directory [out] when
    the answer is the empty string. *)
Lemma manifest_name_rule_demo :
  (exists manifest : object,
     writes_manifest demo_template demo_parse demo_stringify
       demo_target demo_answers demo_world manifest /\
     obj_get "name" manifest = Some (JStr "foo")) /\
  (exists manifest : object,
     writes_manifest demo_template demo_parse demo_stringify
       demo_target [("projectName", JStr "")] demo_world manifest /\
     obj_get "name" manifest = Some (JStr "out")).
Proof.
  split.
  - destruct (manifest_name_rule demo_template demo_parse demo_stringify
                demo_target demo_answers demo_world "template manifest"
                demo_manifest)
      as (manifest & Hrun & _ & Hstring & _).
    + vm_compute. reflexivity.
    + reflexivity.
    + vm_compute. reflexivity.
    + exists manifest. split; [exact Hrun|].
      apply Hstring; [reflexivity | discriminate].
  - destruct (manifest_name_rule demo_template demo_parse demo_stringify
                demo_target [("projectName", JStr "")] demo_world
                "template manifest" demo_manifest)
      as (manifest & Hrun & _ & _ & Hfalsy & _).
    + vm_compute. reflexivity.
    + reflexivity.
    + vm_compute. reflexivity.
    + exists manifest. split; [exact Hrun|]. now apply Hfalsy.
Defined.

(** The build command of the template becomes [tsc] in the manifest that
    is written; the manifest of the scenario has no build command and the
    written one has none. *)
Lemma build_script_rule_demo :
  (exists manifest : object,
     writes_manifest demo_template demo_parse demo_stringify
       demo_target demo_answers demo_world manifest /\
     build_script manifest = Some (JStr "tsc")) /\
  (exists manifest : object,
     writes_manifest demo_template plain_parse demo_stringify
       demo_target demo_answers demo_world manifest /\
     build_script manifest = None).
Proof.
  split.
  - destruct (build_script_rule demo_template demo_parse demo_stringify
                demo_target demo_answers demo_world "template manifest"
                demo_manifest)
      as (manifest & Hrun & Hbuild & _).
    + vm_compute. reflexivity.
    + reflexivity.
    + vm_compute. reflexivity.
    + exists manifest. split; [exact Hrun|].
      apply (Hbuild "tsc && node -e patch-initialize");
        [reflexivity | discriminate].
  - destruct (build_script_rule demo_template plain_parse demo_stringify
                demo_target demo_answers demo_world "template manifest"
                plain_manifest)
      as (manifest & Hrun & _ & Hnone).
    + vm_compute. reflexivity.
    + reflexivity.
    + vm_compute. reflexivity.
    + exists manifest. split; [exact Hrun|]. now apply Hnone.
Defined.



(** ** The further properties at work *)

(** The initializer of the template is excluded: nothing appears in its
    place. *)
Lemma copy_never_writes_below_excluded_demo :
  files (final_world
           (copyRecursiveSync demo_template readdir_keys 4
              (demo_template ++ ["src"]) (demo_target ++ ["src"])
              EXCLUDE_FROM_COPY demo_world))
    !! (demo_target ++ ["src"; "initialize.ts"]) = None.
Proof.
  etrans.
  - apply (copy_never_writes_below_excluded demo_template readdir_keys
             EXCLUDE_FROM_COPY 4 (demo_template ++ ["src"])
             (demo_target ++ ["src"]) ["initialize.ts"] [] demo_world).
    reflexivity.
  - vm_compute. reflexivity.
Defined.

(** The guide of the template is where it was after the copy of [docs]. *)
Lemma copy_leaves_source_alone_demo :
  files (final_world
           (copyRecursiveSync demo_template readdir_keys 4
              (demo_template ++ ["docs"]) (demo_target ++ ["docs"])
              EXCLUDE_FROM_COPY demo_world))
    !! (demo_template ++ ["docs"; "guide.md"]) = Some (File "guide").
Proof.
  etrans.
  - apply (copy_leaves_source_alone demo_template readdir_keys
             EXCLUDE_FROM_COPY 4 (demo_template ++ ["docs"])
             (demo_target ++ ["docs"]) ["guide.md"] demo_world).
    split; intros [k Hk]; discriminate Hk.
  - vm_compute. reflexivity.
Defined.

(** The tools of the template, two levels down, arrive with their bytes. *)
Lemma copy_round_trip_demo :
  files demo_copied !! (demo_target ++ ["src"; "tools"; "index.ts"]) =
  Some (File "tools").
Proof.
  destruct (copy_round_trip demo_template readdir_keys EXCLUDE_FROM_COPY 4
              (demo_template ++ ["src"]) (demo_target ++ ["src"])
              ["tools"; "index.ts"] demo_world demo_copied) as [Hfile _].
  - apply readdir_keys_lists_all.
  - split; intros [k Hk]; discriminate Hk.
  - apply scenario_copy.
  - apply reachedb_sound. vm_compute. reflexivity.
  - apply Hfile. vm_compute. reflexivity.
Defined.

(** Seven levels of recursion are enough for the example. *)
Lemma copy_terminates_demo :
  exists w',
    copyRecursiveSync demo_template readdir_keys 7
      (demo_template ++ ["src"]) (demo_target ++ ["src"])
      EXCLUDE_FROM_COPY demo_world = Ret tt w' \/
    exists e,
      copyRecursiveSync demo_template readdir_keys 7
        (demo_template ++ ["src"]) (demo_target ++ ["src"])
        EXCLUDE_FROM_COPY demo_world = Throw e w'.
Proof.
  apply (copy_terminates demo_template readdir_keys EXCLUDE_FROM_COPY 7
           (demo_template ++ ["src"]) (demo_target ++ ["src"]) demo_world).
  - split; intros [k Hk]; discriminate Hk.
  - vm_compute. lia.
Defined.

(** Copying the documents into [docs/copy] does not come back, with fifty
    levels of recursion or any other number. *)
Lemma copy_into_itself_never_returns_demo :
  not_returned
    (copyRecursiveSync demo_template readdir_keys 50
       (demo_template ++ ["docs"]) (demo_template ++ ["docs"; "copy"])
       EXCLUDE_FROM_COPY demo_world).
Proof.
  apply (copy_into_itself_never_returns demo_template readdir_keys
           EXCLUDE_FROM_COPY "copy" 50 readdir_keys_lists_all
           (demo_template ++ ["docs"]) demo_world).
  - vm_compute. eauto.
  - intros [|k]; reflexivity.
Defined.

(** Seven entries, seven lines, also for the entries the template lacks. *)
Lemma copyTemplateFiles_prints_one_line_each_demo :
  console (final_world
             (copyTemplateFiles demo_template readdir_keys 4 FILES_TO_COPY
                demo_target EXCLUDE_FROM_COPY demo_world)) =
  map copying_line FILES_TO_COPY.
Proof.
  apply (copyTemplateFiles_prints_one_line_each demo_template readdir_keys 4
           FILES_TO_COPY demo_target EXCLUDE_FROM_COPY demo_world).
  vm_compute. reflexivity.
Defined.


(** The keys of the manifest written for [foo]: [bin] and [author] are
    gone, [description] is new and last. *)
Lemma written_manifest_keeps_key_order_demo :
  exists manifest : object,
    writes_manifest demo_template demo_parse demo_stringify
      demo_target demo_answers demo_world manifest /\
    keys manifest = ["name"; "version"; "scripts"; "description"].
Proof.
  apply (written_manifest_keeps_key_order demo_template demo_parse
           demo_stringify demo_target demo_answers demo_world
           "template manifest" demo_manifest).
  - vm_compute. reflexivity.
  - reflexivity.
  - vm_compute. reflexivity.
Defined.

(** The description of [foo] is the one that was answered; with no answer
    it is empty. *)
Lemma manifest_description_rule_demo :
  (exists manifest : object,
     writes_manifest demo_template demo_parse demo_stringify
       demo_target demo_answers demo_world manifest /\
     obj_get "description" manifest = Some (JStr "bar")) /\
  (exists manifest : object,
     writes_manifest demo_template demo_parse demo_stringify
       demo_target [] demo_world manifest /\
     obj_get "description" manifest = Some (JStr "")).
Proof.
  split.
  - destruct (manifest_description_rule demo_template demo_parse
                demo_stringify demo_target demo_answers demo_world
                "template manifest" demo_manifest)
      as (manifest & Hrun & Htruthy & _).
    + vm_compute. reflexivity.
    + reflexivity.
    + vm_compute. reflexivity.
    + exists manifest. split; [exact Hrun|]. now apply Htruthy.
  - destruct (manifest_description_rule demo_template demo_parse
                demo_stringify demo_target [] demo_world
                "template manifest" demo_manifest)
      as (manifest & Hrun & _ & _ & Hfalsy).
    + vm_compute. reflexivity.
    + reflexivity.
    + vm_compute. reflexivity.
    + exists manifest. split; [exact Hrun|]. now apply Hfalsy.
Defined.


(** Writing the manifest of [foo] leaves [extra.txt] alone. *)
Lemma updatePackageJson_touches_only_the_manifest_demo :
  files (final_world
           (updatePackageJson demo_template demo_parse demo_stringify
              demo_target demo_answers demo_world))
    !! (demo_target ++ ["docs"; "extra.txt"]) = Some (File "mine").
Proof.
  destruct (updatePackageJson_touches_only_the_manifest demo_template
              demo_parse demo_stringify demo_target demo_answers demo_world
              (demo_target ++ ["docs"; "extra.txt"])) as [Hsame _].
  - discriminate.
  - rewrite Hsame. vm_compute. reflexivity.
Defined.

(** A template manifest that reads [null]. *)
Lemma updatePackageJson_on_a_manifest_that_is_no_object_demo :
  updatePackageJson demo_template null_parse demo_stringify
    demo_target demo_answers null_manifest_world =
  Ret tt (with_line null_manifest_world
            (ConsoleError "Error updating package.json: " TypeError)).
Proof.
  apply (updatePackageJson_on_a_manifest_that_is_no_object demo_template
           null_parse demo_stringify demo_target demo_answers
           null_manifest_world "null" JNull).
  - vm_compute. reflexivity.
  - reflexivity.
Defined.

(** A run over the directory [out] keeps its [extra.txt]; a run that is
    not allowed to overwrite stops at once. *)
Lemma run_keeps_what_was_there_demo :
  is_Some (files (final_world
                    (run_from_target demo_template readdir_keys demo_parse
                       demo_stringify 4 ["home"] "out" true demo_answers
                       demo_world))
             !! (demo_target ++ ["docs"; "extra.txt"])) /\
  run_from_target demo_template readdir_keys demo_parse demo_stringify 4
    ["home"] "out" false demo_answers demo_world =
  Ret (Exited 0)
    (with_line demo_world (ConsoleLog "Initialization cancelled.")).
Proof.
  split.
  - apply (run_keeps_what_was_there demo_template readdir_keys demo_parse
             demo_stringify 4 ["home"] "out" true demo_answers demo_world
             (demo_target ++ ["docs"; "extra.txt"]) (File "mine")).
    vm_compute. reflexivity.
  - apply (run_keeps_what_was_there demo_template readdir_keys demo_parse
             demo_stringify 4 ["home"] "out" false demo_answers demo_world
             [] Dir).
    + vm_compute. reflexivity.
    + vm_compute. eauto.
    + reflexivity.
Defined.

(** On a machine with no template at all the run still ends with the
    instructions, and with no file written. *)
Lemma run_succeeds_whatever_the_manifest_demo :
  exists lines : list console_line,
    run_from_target demo_template readdir_keys demo_parse demo_stringify 4
      ["home"] "out" true demo_answers bare_world =
    Ret Finished
      (World (files bare_world)
         (lines ++ map ConsoleLog (final_instructions "out"))).
Proof.
  pose (w1 := final_world (prepareTarget ["home"; "out"] true bare_world)).
  pose (w2 := final_world
                (copyTemplateFiles demo_template readdir_keys 4 FILES_TO_COPY
                   ["home"; "out"] EXCLUDE_FROM_COPY
                   (with_line w1
                      (ConsoleLog (nl +:+ "Creating project structure..."))))).
  destruct (run_succeeds_whatever_the_manifest demo_template readdir_keys
              demo_parse demo_stringify 4 ["home"] "out" true demo_answers
              bare_world w1 w2) as [Hrun Hmissing].
  - vm_compute. reflexivity.
  - vm_compute. reflexivity.
  - rewrite Hrun, Hmissing; [|vm_compute; reflexivity].
    eexists. f_equal.
Defined.

(** The manifest of the template is as it was after a whole run. *)
Lemma run_leaves_the_template_alone_demo :
  files (final_world
           (run_from_target demo_template readdir_keys demo_parse
              demo_stringify 4 ["home"] "out" true demo_answers demo_world))
    !! (demo_template ++ ["package.json"]) = Some (File "template manifest").
Proof.
  etrans.
  - apply (run_leaves_the_template_alone demo_template readdir_keys
             demo_parse demo_stringify 4 ["home"] "out" true demo_answers
             demo_world ["package.json"]).
    split; intros [k Hk]; discriminate Hk.
  - vm_compute. reflexivity.
Defined.

(** After a whole run the new project has the tools of the template. *)
Lemma run_copies_the_template_demo :
  files (final_world
           (run_from_target demo_template readdir_keys demo_parse
              demo_stringify 4 ["home"] "out" true demo_answers demo_world))
    !! (demo_target ++ ["src"; "tools"; "index.ts"]) = Some (File "tools").
Proof.
  apply (run_copies_the_template demo_template readdir_keys demo_parse
           demo_stringify 4 ["home"] "out" true demo_answers demo_world
           _ "src" ["tools"; "index.ts"] "tools").
  - apply readdir_keys_lists_all.
  - split; intros [k Hk]; discriminate Hk.
  - vm_compute. reflexivity.
  - unfold FILES_TO_COPY. repeat constructor.
  - apply reachedb_sound. vm_compute. reflexivity.
  - vm_compute. reflexivity.
Defined.
